(** * vtk3DCursorRepresentation: a shallow embedding and its properties

    The development follows [Interaction/Widgets/vtk3DCursorRepresentation.cxx].

    - C++ [double] values are IEEE-754 binary64 numbers, taken from the
      Standard Library's executable specification [SpecFloat]
      (round-to-nearest-even, signed zeros, infinities, one NaN).
    - Objects reached through pointers ([vtkActor], the mappers) live in a
      store keyed by their address; a pointer is an [option] of such a key.
    - The collaborators that the file only calls (the renderer, the hardware
      picker, the actor's bounds computation, the handle-size conversion of
      the superclass) are the fields of the [Collaborators] interface. *)

From Stdlib Require Import ZArith Bool List Lia.
From Stdlib Require Import Floats.SpecFloat.
From stdpp Require Import base option list strings pretty gmap fin_maps.

Local Open Scope Z_scope.

(** ** Binary64 arithmetic *)

Module Double.

Definition prec : Z := 53.
Definition emax : Z := 1024.

Definition double : Type := spec_float.

Definition valid (x : double) : bool := valid_binary prec emax x.

Definition mul : double -> double -> double := SFmul prec emax.
Definition div : double -> double -> double := SFdiv prec emax.
Definition sub : double -> double -> double := SFsub prec emax.
Definition add : double -> double -> double := SFadd prec emax.
Definition eqb : double -> double -> bool := SFeqb.

(** [std::isnan] *)
Definition isnan (x : double) : bool :=
  match x with
  | S754_nan => true
  | _ => false
  end.

(** [std::isfinite] *)
Definition isfinite (x : double) : bool :=
  match x with
  | S754_zero _ | S754_finite _ _ _ => true
  | S754_infinity _ | S754_nan => false
  end.

(** Conversion of an integer literal, exact for the small literals used. *)
Definition of_Z (n : Z) : double := binary_normalize prec emax n 0 false.

Definition zero : double := S754_zero false.
Definition one : double := Eval cbv in of_Z 1.
Definition two : double := Eval cbv in of_Z 2.
Definition nan : double := S754_nan.
Definition infinity : double := S754_infinity false.

#[global] Arguments mul : simpl never.
#[global] Arguments div : simpl never.
#[global] Arguments sub : simpl never.
#[global] Arguments add : simpl never.
#[global] Arguments eqb : simpl never.

End Double.

Export Double.

(** ** Objects of the scene *)

(** [double v[3]] *)
Definition Vec3 : Type := double * double * double.

(** [double bounds[6]]: index 0 is [xmin], index 1 is [xmax], and so on. *)
Record Bounds : Type := mkBounds {
  xmin : double; xmax : double;
  ymin : double; ymax : double;
  zmin : double; zmax : double }.

(** Addresses of heap objects; a C++ pointer is an [option] of an address. *)
Definition ActorPtr : Type := positive.
Definition MapperPtr : Type := positive.
Definition RendererPtr : Type := positive.

(** The algorithm feeding a mapper. *)
Inductive Source : Type :=
| Cursor3DSource (Outline Axes XShadows YShadows ZShadows : bool)
| SphereSource (ThetaResolution PhiResolution : Z)
| ExternalSource.

Record Mapper : Type := mkMapper {
  (** dynamic type, as [vtkOpenGLPolyDataMapper::SafeDownCast] sees it *)
  IsOpenGLPolyDataMapper : bool;
  InputConnection : Source;
  ResolveCoincidentTopology : bool;
  Updated : bool;
  PointIdArrayName : option string;
  CellIdArrayName : option string }.

Record Actor : Type := mkActor {
  GetMapper : option MapperPtr;
  Position : Vec3;
  Scale : Vec3;
  Color : Vec3;
  LineWidth : double }.

Definition SetPointIdArrayName (name : option string) (m : Mapper) : Mapper :=
  mkMapper (IsOpenGLPolyDataMapper m) (InputConnection m)
    (ResolveCoincidentTopology m) (Updated m) name (CellIdArrayName m).

Definition SetCellIdArrayName (name : option string) (m : Mapper) : Mapper :=
  mkMapper (IsOpenGLPolyDataMapper m) (InputConnection m)
    (ResolveCoincidentTopology m) (Updated m) (PointIdArrayName m) name.

Definition SetInputConnection (src : Source) (m : Mapper) : Mapper :=
  mkMapper (IsOpenGLPolyDataMapper m) src
    (ResolveCoincidentTopology m) (Updated m)
    (PointIdArrayName m) (CellIdArrayName m).

Definition SetResolveCoincidentTopologyToOff (m : Mapper) : Mapper :=
  mkMapper (IsOpenGLPolyDataMapper m) (InputConnection m)
    false (Updated m) (PointIdArrayName m) (CellIdArrayName m).

Definition Update (m : Mapper) : Mapper :=
  mkMapper (IsOpenGLPolyDataMapper m) (InputConnection m)
    (ResolveCoincidentTopology m) true
    (PointIdArrayName m) (CellIdArrayName m).

Definition SetMapper (m : MapperPtr) (a : Actor) : Actor :=
  mkActor (Some m) (Position a) (Scale a) (Color a) (LineWidth a).

Definition SetPosition (p : Vec3) (a : Actor) : Actor :=
  mkActor (GetMapper a) p (Scale a) (Color a) (LineWidth a).

Definition SetScale (sc : Vec3) (a : Actor) : Actor :=
  mkActor (GetMapper a) (Position a) sc (Color a) (LineWidth a).

Definition SetColor (c : Vec3) (a : Actor) : Actor :=
  mkActor (GetMapper a) (Position a) (Scale a) c (LineWidth a).

Definition SetLineWidth (lw : double) (a : Actor) : Actor :=
  mkActor (GetMapper a) (Position a) (Scale a) (Color a) lw.

(** [vtkMath::MultiplyScalar(a, s)]: [a[i] *= s] for the three components. *)
Definition MultiplyScalar (a : Vec3) (s : double) : Vec3 :=
  let '(a0, a1, a2) := a in (mul a0 s, mul a1 s, mul a2 s).

(** ** The representation and the objects it can reach *)

(** Modelled from the spec: the enumeration [CursorShape] of the header,
    which is not part of the sources at hand ("ShapeKind: enum {Cross,
    Sphere, Custom}. Ordinal-ordered; validity is a closed range check"). *)
Definition CROSS_SHAPE : Z := 0.
Definition SPHERE_SHAPE : Z := 1.
Definition CUSTOM_SHAPE : Z := 2.

(** Parameters used when creating cursor shapes *)
Definition CURSOR_COLOR : Vec3 := (one, zero, zero).
Definition CROSS_LINE_WIDTH : double := two.
Definition SPHERE_RES : Z := 16.

(** The members of [vtk3DCursorRepresentation] and of its [vtkInternals],
    together with the two stores of objects they point into. *)
Record State : Type := mkState {
  Shape : Z;
  CustomCursor : option ActorPtr;
  Renderer : option RendererPtr;
  HandleSize : double;
  ValidPick : bool;
  MTime : N;
  (* vtkInternals *)
  Cursor : option ActorPtr;
  PickPosition : Vec3;          (* the state of [Picker] read back by the file *)
  NeedUpdate : bool;
  (* the heap *)
  actors : gmap ActorPtr Actor;
  mappers : gmap MapperPtr Mapper }.

Definition set_Shape (v : Z) (s : State) : State :=
  mkState v (CustomCursor s) (Renderer s) (HandleSize s) (ValidPick s)
    (MTime s) (Cursor s) (PickPosition s) (NeedUpdate s) (actors s) (mappers s).

Definition set_CustomCursor (v : option ActorPtr) (s : State) : State :=
  mkState (Shape s) v (Renderer s) (HandleSize s) (ValidPick s)
    (MTime s) (Cursor s) (PickPosition s) (NeedUpdate s) (actors s) (mappers s).

Definition set_Renderer (v : option RendererPtr) (s : State) : State :=
  mkState (Shape s) (CustomCursor s) v (HandleSize s) (ValidPick s)
    (MTime s) (Cursor s) (PickPosition s) (NeedUpdate s) (actors s) (mappers s).

Definition set_HandleSize (v : double) (s : State) : State :=
  mkState (Shape s) (CustomCursor s) (Renderer s) v (ValidPick s)
    (MTime s) (Cursor s) (PickPosition s) (NeedUpdate s) (actors s) (mappers s).

Definition set_ValidPick (v : bool) (s : State) : State :=
  mkState (Shape s) (CustomCursor s) (Renderer s) (HandleSize s) v
    (MTime s) (Cursor s) (PickPosition s) (NeedUpdate s) (actors s) (mappers s).

(** [this->Modified()] *)
Definition Modified (s : State) : State :=
  mkState (Shape s) (CustomCursor s) (Renderer s) (HandleSize s) (ValidPick s)
    (N.succ (MTime s)) (Cursor s) (PickPosition s) (NeedUpdate s)
    (actors s) (mappers s).

Definition set_Cursor (v : option ActorPtr) (s : State) : State :=
  mkState (Shape s) (CustomCursor s) (Renderer s) (HandleSize s) (ValidPick s)
    (MTime s) v (PickPosition s) (NeedUpdate s) (actors s) (mappers s).

Definition set_PickPosition (v : Vec3) (s : State) : State :=
  mkState (Shape s) (CustomCursor s) (Renderer s) (HandleSize s) (ValidPick s)
    (MTime s) (Cursor s) v (NeedUpdate s) (actors s) (mappers s).

Definition set_NeedUpdate (v : bool) (s : State) : State :=
  mkState (Shape s) (CustomCursor s) (Renderer s) (HandleSize s) (ValidPick s)
    (MTime s) (Cursor s) (PickPosition s) v (actors s) (mappers s).

Definition set_actors (v : gmap ActorPtr Actor) (s : State) : State :=
  mkState (Shape s) (CustomCursor s) (Renderer s) (HandleSize s) (ValidPick s)
    (MTime s) (Cursor s) (PickPosition s) (NeedUpdate s) v (mappers s).

Definition set_mappers (v : gmap MapperPtr Mapper) (s : State) : State :=
  mkState (Shape s) (CustomCursor s) (Renderer s) (HandleSize s) (ValidPick s)
    (MTime s) (Cursor s) (PickPosition s) (NeedUpdate s) (actors s) v.

(** ** What a call can do besides changing the state *)

(** Observable or ghost events of a call: a diagnostic emitted with
    [vtkWarningMacro], and every floating-point division executed. *)
Inductive Event : Type :=
| Warning (msg : string)
| Division (num den : double).

(** How a call ends: it returns, or an exception thrown by a collaborator
    leaves it with the state reached so far, or it dereferences a null or
    dangling pointer. *)
Inductive Outcome (A : Type) : Type :=
| Returned (v : A) (s : State)
| Thrown (s : State)
| Crashed.

Arguments Returned {A} v s.
Arguments Thrown {A} s.
Arguments Crashed {A}.

(** What the hardware picker answers to [Pick]. *)
Inductive PickReply : Type :=
| PickReturns (pos : Vec3)
| PickThrows.

(** ** Collaborators

    Everything the file calls but does not define. *)
Class Collaborators : Type := {
  (** [vtkRenderer::GetActors], in traversal order *)
  GetActors : RendererPtr -> list ActorPtr;
  (** a default-constructed [vtkActor] and [vtkPolyDataMapper] *)
  NewActor : Actor;
  NewPolyDataMapper : Mapper;
  (** [vtkActor::GetBounds] *)
  GetBounds : gmap MapperPtr Mapper -> Actor -> Bounds;
  (** [vtkWidgetRepresentation::SizeHandlesInPixels(factor, pos)], which reads
      the renderer (and its camera), the handle size and the pick validity *)
  SizeHandlesInPixels :
    option RendererPtr -> double -> bool -> double -> Vec3 -> double;
  (** [vtkHardwarePicker::Pick(x, y, z, renderer)] on the scene as it is at
      the time of the call: the picker reads the scene, writes nothing of it,
      and either records a pick position or throws *)
  Pick : double -> double -> double -> RendererPtr ->
         gmap ActorPtr Actor -> gmap MapperPtr Mapper -> PickReply;
  (** [vtkActor::RenderOpaqueGeometry(viewport)] *)
  ActorRenderOpaqueGeometry :
    RendererPtr -> gmap MapperPtr Mapper -> Actor -> Z }.

(** ** The methods *)

Section Methods.
Context `{env : Collaborators}.

(** *** Helper methods to create cursor actors *)

(** [vtkInternals::CreateCrossCursor]: a fresh mapper fed by a
    [vtkCursor3D] with only the axes on, and a fresh actor on top of it. *)
Definition CreateCrossCursor (s : State) : ActorPtr * State :=
  let cross := Cursor3DSource false true false false false in
  let mapper := fresh (dom (mappers s)) in
  let m := Update (SetResolveCoincidentTopologyToOff
                     (SetInputConnection cross NewPolyDataMapper)) in
  let cursor := fresh (dom (actors s)) in
  let a := SetLineWidth CROSS_LINE_WIDTH
             (SetColor CURSOR_COLOR (SetMapper mapper NewActor)) in
  (cursor, set_actors (<[cursor := a]> (actors s))
             (set_mappers (<[mapper := m]> (mappers s)) s)).

(** [vtkInternals::CreateSphereCursor] *)
Definition CreateSphereCursor (s : State) : ActorPtr * State :=
  let sphere := SphereSource SPHERE_RES SPHERE_RES in
  let mapper := fresh (dom (mappers s)) in
  let m := Update (SetResolveCoincidentTopologyToOff
                     (SetInputConnection sphere NewPolyDataMapper)) in
  let cursor := fresh (dom (actors s)) in
  let a := SetColor CURSOR_COLOR (SetMapper mapper NewActor) in
  (cursor, set_actors (<[cursor := a]> (actors s))
             (set_mappers (<[mapper := m]> (mappers s)) s)).

(** *** [vtkInternals::UpdateCursor] *)
Definition UpdateCursor (s : State) : State :=
  if negb (NeedUpdate s) then s
  else
    let s := set_NeedUpdate false s in
    if Shape s =? CUSTOM_SHAPE then
      match CustomCursor s with
      | Some c => set_Cursor (Some c) s
      | None => s
      end
    else if Shape s =? SPHERE_SHAPE then
      let '(c, s) := CreateSphereCursor s in set_Cursor (Some c) s
    else
      let '(c, s) := CreateCrossCursor s in set_Cursor (Some c) s.

(** *** The constructor

    Modelled from the spec: the member initialisers of the header, which is
    not part of the sources at hand ("Initial state: Cross, dirty=true";
    no custom renderable and no renderer yet).  The body then runs
    [UpdateCursor] and sets [HandleSize] and [ValidPick]. *)
Definition New (heap_actors : gmap ActorPtr Actor)
    (heap_mappers : gmap MapperPtr Mapper) : State :=
  let s := mkState CROSS_SHAPE None None zero false 0%N
             None (zero, zero, zero) true heap_actors heap_mappers in
  let s := UpdateCursor s in
  let s := set_HandleSize (of_Z 15) s in
  set_ValidPick true s.

(** *** [WidgetInteraction] *)

(** The two local maps of [WidgetInteraction] and the mappers they track. *)
Record Masking : Type := mkMasking {
  pointArrayNames : gmap MapperPtr string;
  cellArrayNames : gmap MapperPtr string;
  masked : gmap MapperPtr Mapper }.

(** [std::map::emplace]: an existing key keeps its value. *)
Definition emplace (k : MapperPtr) (v : string)
    (m : gmap MapperPtr string) : gmap MapperPtr string :=
  match m !! k with
  | Some _ => m
  | None => <[k := v]> m
  end.

(** The body of the traversal loop for one actor; [None] when the actor or
    its mapper is a dangling pointer. *)
Definition mask_actor (acts : gmap ActorPtr Actor)
    (mk : Masking) (actor : ActorPtr) : option Masking :=
  a ← acts !! actor;
  match GetMapper a with
  | None => Some mk
  | Some mapper =>
      m ← masked mk !! mapper;
      if IsOpenGLPolyDataMapper m then
        let mk1 :=
          match PointIdArrayName m with
          | Some name =>
              mkMasking (emplace mapper name (pointArrayNames mk))
                (cellArrayNames mk)
                (alter (SetPointIdArrayName None) mapper (masked mk))
          | None => mk
          end in
        (* clearing the point name leaves the cell name of [m] as it is *)
        let mk2 :=
          match CellIdArrayName m with
          | Some name =>
              mkMasking (pointArrayNames mk1)
                (emplace mapper name (cellArrayNames mk1))
                (alter (SetCellIdArrayName None) mapper (masked mk1))
          | None => mk1
          end in
        Some mk2
      else Some mk
  end.

(** The traversal of the renderer's actors. *)
Fixpoint mask_actors (acts : gmap ActorPtr Actor)
    (mk : Masking) (actorcol : list ActorPtr) : option Masking :=
  match actorcol with
  | [] => Some mk
  | actor :: rest =>
      match mask_actor acts mk actor with
      | Some mk' => mask_actors acts mk' rest
      | None => None
      end
  end.

(** The two loops that restore the original point and cell data arrays. *)
Definition restore_names (mk : Masking) : gmap MapperPtr Mapper :=
  let ms := map_fold (λ mapper name ms,
                        alter (SetPointIdArrayName (Some name)) mapper ms)
              (masked mk) (pointArrayNames mk) in
  map_fold (λ mapper name ms,
              alter (SetCellIdArrayName (Some name)) mapper ms)
    ms (cellArrayNames mk).

Definition WidgetInteraction (newEventPos : double * double)
    (s : State) : Outcome unit :=
  match Renderer s with
  | None => Returned tt s
  | Some ren =>
      match mask_actors (actors s) (mkMasking ∅ ∅ (mappers s))
              (GetActors ren) with
      | None => Crashed
      | Some mk =>
          let s := set_mappers (masked mk) s in
          match Pick (fst newEventPos) (snd newEventPos) zero ren
                  (actors s) (mappers s) with
          | PickThrows => Thrown s
          | PickReturns picked =>
              let s := set_PickPosition picked s in
              let s := set_mappers (restore_names mk) s in
              let pos := PickPosition s in
              match Cursor s with
              | None => Crashed
              | Some c =>
                  match actors s !! c with
                  | None => Crashed
                  | Some a =>
                      Returned tt
                        (set_actors (<[c := SetPosition pos a]> (actors s)) s)
                  end
              end
          end
      end
  end.

(** *** [BuildRepresentation] *)

(** The locals [targetSize], [cursorBounds[1] - cursorBounds[0]] and
    [sizeRatio], as functions of the state and of the cursor actor. *)
Definition targetSize (s : State) (a : Actor) : double :=
  SizeHandlesInPixels (Renderer s) (HandleSize s) (ValidPick s)
    one (Position a).

Definition cursorWidth (s : State) (a : Actor) : double :=
  let cursorBounds := GetBounds (mappers s) a in
  sub (xmax cursorBounds) (xmin cursorBounds).

Definition sizeRatio (s : State) (a : Actor) : double :=
  div (mul two (targetSize s a)) (cursorWidth s a).

Definition BuildRepresentation (s : State) : list Event * Outcome unit :=
  let s := UpdateCursor s in
  match Cursor s with
  | None => ([], Crashed)
  | Some c =>
      match actors s !! c with
      | None => ([], Crashed)
      | Some a =>
          (* Safety check *)
          if eqb (cursorWidth s a) zero
          then ([], Returned tt s)
          else
            let division :=
              Division (mul two (targetSize s a)) (cursorWidth s a) in
            if isnan (sizeRatio s a)
            then ([division], Returned tt s)
            else
              (* Rescale the actor to fit the target size *)
              let scale := MultiplyScalar (Scale a) (sizeRatio s a) in
              ([division],
               Returned tt
                 (set_actors (<[c := SetScale scale a]> (actors s)) s))
      end
  end.

(** *** [ReleaseGraphicsResources]: forwarded to the cursor actor. *)
Definition ReleaseGraphicsResources {Window : Type} (win : Window)
    (s : State) : Outcome unit :=
  match Cursor s with
  | None => Crashed
  | Some c =>
      match actors s !! c with
      | None => Crashed
      | Some _ => Returned tt s
      end
  end.

(** *** [RenderOpaqueGeometry] *)
Definition RenderOpaqueGeometry (viewport : RendererPtr)
    (s : State) : list Event * Outcome Z :=
  match BuildRepresentation s with
  | (evs, Returned _ s) =>
      match Cursor s with
      | None => (evs, Crashed)
      | Some c =>
          match actors s !! c with
          | None => (evs, Crashed)
          | Some a =>
              (evs, Returned (ActorRenderOpaqueGeometry viewport (mappers s) a) s)
          end
      end
  | (evs, Thrown s) => (evs, Thrown s)
  | (evs, Crashed) => (evs, Crashed)
  end.

(** *** [SetCursorShape] *)

Definition newline : string := String (Ascii.ascii_of_nat 10) EmptyString.

(** The text streamed into [vtkWarningMacro]. *)
Definition shape_warning : string :=
  ("Given shape doesn't exist. Valid values are ranging between "
     +:+ pretty CROSS_SHAPE +:+ " and " +:+ pretty CUSTOM_SHAPE +:+ "."
     +:+ newline +:+ " Previous cursor shape is preserved.")%string.

Definition SetCursorShape (shape : Z) (s : State) : list Event * State :=
  if (shape <? CROSS_SHAPE) || (shape >? CUSTOM_SHAPE)
  then ([Warning shape_warning], s)
  else if negb (shape =? Shape s)
  then ([], set_NeedUpdate true (set_Shape shape s))
  else ([], s).

(** *** [SetCustomCursor] *)
Definition SetCustomCursor (customCursor : option ActorPtr)
    (s : State) : State :=
  match customCursor with
  | Some c =>
      if negb (bool_decide (customCursor = CustomCursor s)) then
        let s := set_CustomCursor customCursor s in
        let s := Modified s in
        if Shape s =? CUSTOM_SHAPE then set_NeedUpdate true s else s
      else s
  | None => s
  end.

(** *** The deprecated [SetCursor] and [GetCursor] *)
Definition SetCursor (cursor : option ActorPtr)
    (s : State) : list Event * State :=
  let '(evs, s) := SetCursorShape CUSTOM_SHAPE s in
  (evs, SetCustomCursor cursor s).

Definition GetCursor (s : State) : option ActorPtr := CustomCursor s.

End Methods.

(** ** Sequences of calls

    What the owning widget can do with a representation once it is built. *)

Inductive Call : Type :=
| CallSetCursorShape (shape : Z)
| CallSetCustomCursor (customCursor : option ActorPtr)
| CallSetCursor (cursor : option ActorPtr)
| CallSetRenderer (ren : option RendererPtr)
| CallWidgetInteraction (newEventPos : double * double)
| CallBuildRepresentation
| CallRenderOpaqueGeometry (viewport : RendererPtr)
| CallReleaseGraphicsResources.

(** Modelled from the spec: [vtkWidgetRepresentation::SetRenderer], the
    inherited setter that binds or unbinds the renderer ("no-op if no
    renderer is bound"); it is not part of the sources at hand. *)
Definition SetRenderer (ren : option RendererPtr) (s : State) : State :=
  set_Renderer ren s.

(** A caller hands over only actors that are alive. *)
Definition admissible (call : Call) (s : State) : Prop :=
  match call with
  | CallSetCustomCursor (Some c) | CallSetCursor (Some c) =>
      is_Some (actors s !! c)
  | _ => True
  end.

Section Calls.
Context `{env : Collaborators}.

(** The state a call leaves behind, whether it returns or throws; [None]
    when it crashes. *)
Definition left_by {A : Type} (o : Outcome A) : option State :=
  match o with
  | Returned _ s => Some s
  | Thrown s => Some s
  | Crashed => None
  end.

Definition exec (call : Call) (s : State) : option State :=
  match call with
  | CallSetCursorShape shape => Some (SetCursorShape shape s).2
  | CallSetCustomCursor c => Some (SetCustomCursor c s)
  | CallSetCursor c => Some (SetCursor c s).2
  | CallSetRenderer ren => Some (SetRenderer ren s)
  | CallWidgetInteraction pos => left_by (WidgetInteraction pos s)
  | CallBuildRepresentation => left_by (BuildRepresentation s).2
  | CallRenderOpaqueGeometry viewport =>
      left_by (RenderOpaqueGeometry viewport s).2
  | CallReleaseGraphicsResources => left_by (ReleaseGraphicsResources tt s)
  end.

(** A sequence of calls, stopped by a crash. *)
Fixpoint execs (calls : list Call) (s : State) : option State :=
  match calls with
  | [] => Some s
  | call :: rest => s' ← exec call s; execs rest s'
  end.

(** The states of a representation during its lifetime. *)
Inductive reachable : State -> Prop :=
| reachable_New heap_actors heap_mappers :
    reachable (New heap_actors heap_mappers)
| reachable_exec s call s' :
    reachable s -> admissible call s -> exec call s = Some s' ->
    reachable s'.

End Calls.

(** ** Vocabulary of the statements *)

(** [s'] is [s] with dirty flag cleared and a newly allocated cursor actor of
    the given colour and geometry source on a newly allocated mapper. *)
Definition cursor_built (src : Source) (line_width : option double)
    (s s' : State) : Prop :=
  ∃ (c : ActorPtr) (m : MapperPtr) (a : Actor) (mp : Mapper),
    actors s !! c = None ∧ mappers s !! m = None ∧
    s' = set_Cursor (Some c)
           (set_actors (<[c := a]> (actors s))
              (set_mappers (<[m := mp]> (mappers s))
                 (set_NeedUpdate false s))) ∧
    GetMapper a = Some m ∧ Color a = CURSOR_COLOR ∧
    (∀ lw, line_width = Some lw → LineWidth a = lw) ∧
    InputConnection mp = src ∧ ResolveCoincidentTopology mp = false ∧
    Updated mp = true.

(** The cursor pointer is neither null nor dangling. *)
Definition cursor_alive (s : State) : Prop :=
  ∃ c, Cursor s = Some c ∧ is_Some (actors s !! c).

(** The custom cursor, if any, is not dangling. *)
Definition custom_alive (s : State) : Prop :=
  ∀ c, CustomCursor s = Some c → is_Some (actors s !! c).

(** The invariant of the representation: the cursor and the custom cursor
    point to live actors. *)
Definition alive (s : State) : Prop := cursor_alive s ∧ custom_alive s.

(** The scale of the cursor actor. *)
Definition cursor_scale (s : State) : option Vec3 :=
  c ← Cursor s; a ← actors s !! c; Some (Scale a).

(** The position of the cursor actor. *)
Definition cursor_position (s : State) : option Vec3 :=
  c ← Cursor s; a ← actors s !! c; Some (Position a).

(** The three components of a vector are binary64 numbers. *)
Definition valid3 (v : Vec3) : bool :=
  let '(x, y, z) := v in valid x && valid y && valid z.

(** What the restore loops do to one mapper, given the names recorded for
    it. *)
Definition restore1 (pn cn : option string) (mp : Mapper) : Mapper :=
  let mp := if pn is Some name then SetPointIdArrayName (Some name) mp
            else mp in
  if cn is Some name then SetCellIdArrayName (Some name) mp else mp.

(** The loop invariant of the traversal: restoring the recorded names on
    the masked mappers gives back the original mappers, and a mapper with a
    recorded name has that name cleared. *)
Record mask_inv (orig : gmap MapperPtr Mapper) (mk : Masking) : Prop := {
  inv_restore m :
    orig !! m = restore1 (pointArrayNames mk !! m) (cellArrayNames mk !! m)
                  <$> masked mk !! m;
  inv_point m mp :
    is_Some (pointArrayNames mk !! m) → masked mk !! m = Some mp →
    PointIdArrayName mp = None;
  inv_cell m mp :
    is_Some (cellArrayNames mk !! m) → masked mk !! m = Some mp →
    CellIdArrayName mp = None }.

(** Every actor of the collection is alive, and so is its mapper. *)
Definition scene_alive (acts : gmap ActorPtr Actor)
    (ms : gmap MapperPtr Mapper) (actorcol : list ActorPtr) : Prop :=
  Forall (λ actor, ∃ a, acts !! actor = Some a ∧
                        ∀ m, GetMapper a = Some m → is_Some (ms !! m))
    actorcol.

(** What a rebuild to a built-in shape has done, read off the two states:
    the cursor of [s'] is an actor at an address that was free in [s], it is
    a newly constructed actor but for its mapper, its colour and its line
    width, and it draws, through a mapper at an address that was free in
    [s], the geometry of [src] with the coincident topology resolution off
    and the pipeline updated; every other actor and mapper is as in [s]. *)
Definition cursor_made (src : Source) (line_width : double)
    (new_actor : Actor) (s s' : State) : Prop :=
  ∃ (c : ActorPtr) (m : MapperPtr) (a : Actor) (mp : Mapper),
    Cursor s' = Some c ∧
    actors s !! c = None ∧ actors s' !! c = Some a ∧
    (∀ p, p ≠ c → actors s' !! p = actors s !! p) ∧
    mappers s !! m = None ∧ mappers s' !! m = Some mp ∧
    (∀ q, q ≠ m → mappers s' !! q = mappers s !! q) ∧
    GetMapper a = Some m ∧ Color a = CURSOR_COLOR ∧
    LineWidth a = line_width ∧
    Position a = Position new_actor ∧ Scale a = Scale new_actor ∧
    InputConnection mp = src ∧ ResolveCoincidentTopology mp = false ∧
    Updated mp = true.

(** The geometry source behind the cursor actor. *)
Definition cursor_source (s : State) : option Source :=
  c ← Cursor s; a ← actors s !! c; m ← GetMapper a; mp ← mappers s !! m;
  Some (InputConnection mp).

(** The cursor in use is the one the shape asks for: the custom cursor when
    one is stored, an actor on a sphere source, or an actor on a cross
    source. *)
Definition shape_shown (s : State) : Prop :=
  if Shape s =? CUSTOM_SHAPE then
    ∀ c, CustomCursor s = Some c → Cursor s = Some c
  else if Shape s =? SPHERE_SHAPE then
    cursor_source s = Some (SphereSource SPHERE_RES SPHERE_RES)
  else
    cursor_source s = Some (Cursor3DSource false true false false false).

(** A state that is not dirty shows its shape. *)
Definition consistent (s : State) : Prop :=
  NeedUpdate s = false → shape_shown s.

(** Some actor of the collection is alive and draws with mapper [m]. *)
Definition reaches (acts : gmap ActorPtr Actor) (actorcol : list ActorPtr)
    (m : MapperPtr) : bool :=
  existsb (λ actor, bool_decide (acts !! actor ≫= GetMapper = Some m))
    actorcol.

(** A mapper with both identifier array names cleared. *)
Definition clear_names (mp : Mapper) : Mapper :=
  SetCellIdArrayName None (SetPointIdArrayName None mp).

(** What the traversal has done once it has gone through [actorcol]: the
    OpenGL mappers it reached are cleared and their names recorded, the
    others are as they were. *)
Definition traversed (acts : gmap ActorPtr Actor)
    (orig : gmap MapperPtr Mapper) (actorcol : list ActorPtr)
    (mk : Masking) : Prop :=
  ∀ m,
    masked mk !! m
      = (λ mp, if reaches acts actorcol m && IsOpenGLPolyDataMapper mp
               then clear_names mp else mp) <$> orig !! m ∧
    pointArrayNames mk !! m
      = (mp ← orig !! m;
         if reaches acts actorcol m && IsOpenGLPolyDataMapper mp
         then PointIdArrayName mp else None) ∧
    cellArrayNames mk !! m
      = (mp ← orig !! m;
         if reaches acts actorcol m && IsOpenGLPolyDataMapper mp
         then CellIdArrayName mp else None).

(** ** Scenes used to exercise the statements *)

Module Demo.

Definition half : double := Eval vm_compute in div one two.
Definition one_third : double := Eval vm_compute in div one (of_Z 3).
(** The smallest positive number, 2^-1074. *)
Definition tiny : double := S754_finite false 1 (-1074).
(** The length of a pixel in world units under the camera of the scene. *)
Definition world_per_pixel : double := Eval vm_compute in div one (of_Z 150).

(** Half the extent of the geometry a mapper draws: a [vtkSphereSource]
    has radius 0.5, a [vtkCursor3D] spans [-1, 1]. *)
Definition half_extent (ms : gmap MapperPtr Mapper) (a : Actor) : double :=
  match GetMapper a ≫= (λ m, ms !! m) with
  | Some mp =>
      match InputConnection mp with
      | SphereSource _ _ => half
      | _ => one
      end
  | None => zero
  end.

(** The bounds of an unrotated actor: its geometry scaled, then moved to
    its position, in [double] arithmetic. *)
Definition box_bounds (ms : gmap MapperPtr Mapper) (a : Actor) : Bounds :=
  let '(px, py, pz) := Position a in
  let '(sx, sy, sz) := Scale a in
  let h := half_extent ms a in
  mkBounds (sub px (mul sx h)) (add px (mul sx h))
           (sub py (mul sy h)) (add py (mul sy h))
           (sub pz (mul sz h)) (add pz (mul sz h)).

(** A handle size conversion under a fixed camera; a position that is not
    finite makes the result NaN. *)
Definition fixed_camera (ren : option RendererPtr) (handleSize : double)
    (validPick : bool) (factor : double) (pos : Vec3) : double :=
  let '(px, py, pz) := pos in
  if isfinite px && isfinite py && isfinite pz
  then mul (mul handleSize factor) world_per_pixel
  else nan.

Definition default_actor : Actor :=
  mkActor None (zero, zero, zero) (one, one, one) (one, one, one) one.

Definition default_mapper : Mapper :=
  mkMapper true ExternalSource true false None None.

(** Renderer 1 shows four actors; the first and the third share a mapper
    that carries identifier array names, the fourth has no mapper.  Actor 14
    is a very small one kept by the application. *)
Definition scene_actors : gmap ActorPtr Actor :=
  <[10%positive := SetMapper 20%positive default_actor]>
    (<[11%positive := SetMapper 21%positive default_actor]>
       (<[12%positive := SetMapper 20%positive default_actor]>
          (<[13%positive := default_actor]>
             (<[14%positive := SetScale (tiny, tiny, tiny)
                                 (SetMapper 20%positive default_actor)]> ∅)))).

Definition scene_mappers : gmap MapperPtr Mapper :=
  <[20%positive := SetCellIdArrayName (Some "vtkOriginalCellIds")
                     (SetPointIdArrayName (Some "vtkOriginalPointIds")
                        default_mapper)]>
    (<[21%positive := mkMapper false ExternalSource true true
                        (Some "ids") None]> ∅).

Definition scene_renderers (ren : RendererPtr) : list ActorPtr :=
  if (ren =? 1)%positive then [10; 11; 12; 13]%positive else [].

(** A picker that reports the pointer coordinates as the hit. *)
Definition steady : Collaborators := {|
  GetActors := scene_renderers;
  NewActor := default_actor;
  NewPolyDataMapper := default_mapper;
  GetBounds := box_bounds;
  SizeHandlesInPixels := fixed_camera;
  Pick := λ x y z _ _ _, PickReturns (x, y, z);
  ActorRenderOpaqueGeometry := λ _ _ _, 1 |}.

(** The same scene with a picker that throws. *)
Definition faulty : Collaborators := {|
  GetActors := scene_renderers;
  NewActor := default_actor;
  NewPolyDataMapper := default_mapper;
  GetBounds := box_bounds;
  SizeHandlesInPixels := fixed_camera;
  Pick := λ _ _ _ _ _ _, PickThrows;
  ActorRenderOpaqueGeometry := λ _ _ _, 1 |}.

(** The state a call leaves when it returns, [s] otherwise. *)
Definition returned {A : Type} (o : Outcome A) (s : State) : State :=
  match o with
  | Returned _ s' => s'
  | _ => s
  end.

Definition after (calls : list Call) (s : State) : State :=
  default s (execs (env := steady) calls s).

(** A representation just constructed in that scene, and the same one bound
    to renderer 1. *)
Definition fresh_rep : State := New (env := steady) scene_actors scene_mappers.
Definition bound_rep : State := SetRenderer (Some 1%positive) fresh_rep.

(** After a pick at a finite position, and at a position that is not. *)
Definition picked_rep : State :=
  after [CallWidgetInteraction (one, two)] bound_rep.
Definition missed_rep : State :=
  after [CallWidgetInteraction (nan, one)] bound_rep.

(** A sphere cursor, rendered once and then placed at x = 1/3 by a pick,
    before and after one and two rescalings. *)
Definition sphere_rep : State :=
  after [CallSetCursorShape SPHERE_SHAPE; CallBuildRepresentation;
         CallWidgetInteraction (one_third, zero)] bound_rep.
Definition sphere_once : State := after [CallBuildRepresentation] sphere_rep.
Definition sphere_twice : State := after [CallBuildRepresentation] sphere_once.

(** The cross cursor of a new representation after one rescaling. *)
Definition cross_once : State := after [CallBuildRepresentation] fresh_rep.

(** Custom cursors: actor 13, which has no geometry, and the very small
    actor 14, each adopted by a first [UpdateCursor]. *)
Definition flat_rep : State :=
  UpdateCursor (env := steady) (SetCursor (Some 13%positive) fresh_rep).2.
Definition tiny_rep : State :=
  UpdateCursor (env := steady) (SetCursor (Some 14%positive) fresh_rep).2.
Definition tiny_once : State := after [CallBuildRepresentation] tiny_rep.

(** The cursor actor of a state and its address. *)
Definition cursor_ptr (s : State) : ActorPtr := default 1%positive (Cursor s).
Definition cursor_actor (s : State) : Actor :=
  default default_actor (actors s !! cursor_ptr s).

(** What the traversal of renderer 1 records and clears. *)
Definition bound_mask : Masking :=
  default (mkMasking ∅ ∅ ∅)
    (mask_actors (actors bound_rep) (mkMasking ∅ ∅ (mappers bound_rep))
       (scene_renderers 1%positive)).

(** The state in which a throwing picker leaves the bound representation. *)
Definition masked_rep : State :=
  default bound_rep
    (left_by (WidgetInteraction (env := faulty) (one, one) bound_rep)).

(** A sphere shape asked for but not built yet, a pick in that state, and
    the rebuild that follows. *)
Definition dirty_rep : State :=
  after [CallSetCursorShape SPHERE_SHAPE] bound_rep.
Definition lost_pick : State :=
  after [CallWidgetInteraction (one, two)] dirty_rep.
Definition lost_built : State := after [CallBuildRepresentation] lost_pick.

(** The events of the first rescaling of a new representation, and of the
    rebuild after the pick. *)
Definition cross_events : list Event :=
  (BuildRepresentation (env := steady) fresh_rep).1.
Definition lost_events : list Event :=
  (BuildRepresentation (env := steady) lost_pick).1.

End Demo.

(** ** Properties of the shape state machine *)

Section ShapeProperties.
Context `{env : Collaborators}.

Lemma fresh_actor_None (s : State) : actors s !! fresh (dom (actors s)) = None.
Proof. apply not_elem_of_dom, is_fresh. Qed.

Lemma fresh_mapper_None (s : State) :
  mappers s !! fresh (dom (mappers s)) = None.
Proof. apply not_elem_of_dom, is_fresh. Qed.

Lemma CreateCrossCursor_built (s : State) :
  let built := CreateCrossCursor (set_NeedUpdate false s) in
  cursor_built (Cursor3DSource false true false false false)
    (Some CROSS_LINE_WIDTH) s (set_Cursor (Some built.1) built.2).
Proof.
  unfold cursor_built, CreateCrossCursor; simpl.
  exists (fresh (dom (actors s))), (fresh (dom (mappers s))),
    (SetLineWidth CROSS_LINE_WIDTH
       (SetColor CURSOR_COLOR (SetMapper (fresh (dom (mappers s))) NewActor))),
    (Update (SetResolveCoincidentTopologyToOff
       (SetInputConnection (Cursor3DSource false true false false false)
          NewPolyDataMapper))).
  split; [apply fresh_actor_None|]. split; [apply fresh_mapper_None|].
  repeat split. by intros lw [= <-].
Qed.

Lemma CreateSphereCursor_built (s : State) :
  let built := CreateSphereCursor (set_NeedUpdate false s) in
  cursor_built (SphereSource SPHERE_RES SPHERE_RES) None s
    (set_Cursor (Some built.1) built.2).
Proof.
  unfold cursor_built, CreateSphereCursor; simpl.
  exists (fresh (dom (actors s))), (fresh (dom (mappers s))),
    (SetColor CURSOR_COLOR (SetMapper (fresh (dom (mappers s))) NewActor)),
    (Update (SetResolveCoincidentTopologyToOff
       (SetInputConnection (SphereSource SPHERE_RES SPHERE_RES)
          NewPolyDataMapper))).
  split; [apply fresh_actor_None|]. split; [apply fresh_mapper_None|].
  repeat split. by intros lw [=].
Qed.

(** A newly built cursor is alive, and so is what was alive before. *)
Lemma cursor_built_alive src lw (s s' : State) :
  cursor_built src lw s s' → custom_alive s → alive s'.
Proof.
  intros (c & m & a & mp & _ & _ & -> & _) Hcustom. split.
  - exists c. simpl. by rewrite lookup_insert_eq.
  - intros p Hp. simpl in *. apply Hcustom in Hp.
    rewrite lookup_insert_is_Some. destruct (decide (c = p)); auto.
Qed.

(** C2. A shape outside [CROSS_SHAPE .. CUSTOM_SHAPE] is refused: the call
    returns, the state (shape, dirty flag, cursor and all the rest) is the
    one before the call, and the only effect is one warning. *)
Theorem SetCursorShape_out_of_range (shape : Z) (s : State) :
  shape < CROSS_SHAPE ∨ CUSTOM_SHAPE < shape →
  SetCursorShape shape s = ([Warning shape_warning], s).
Proof.
  intros Hout. unfold SetCursorShape.
  destruct (Z.ltb_spec shape CROSS_SHAPE) as [?|Hge]; [done|].
  destruct Hout as [?|Hgt]; [lia|].
  by rewrite (proj2 (Z.gtb_gt _ _)) by lia.
Qed.

(** C3. [UpdateCursor] leaves the dirty flag clear and never writes the
    shape, the custom cursor or the renderer.  With the flag clear it
    does nothing.  With the flag set, a custom shape makes the custom cursor
    the cursor in use if there is one and keeps the cursor in use otherwise,
    without touching any actor or mapper; a sphere shape makes a newly
    allocated actor on a sphere source of resolution 16 the cursor in use;
    every other shape value makes a newly allocated actor on a cross source,
    with line width 2, the cursor in use. *)
Theorem UpdateCursor_dispatch (s : State) :
  NeedUpdate (UpdateCursor s) = false ∧
  Shape (UpdateCursor s) = Shape s ∧
  CustomCursor (UpdateCursor s) = CustomCursor s ∧
  Renderer (UpdateCursor s) = Renderer s ∧
  if NeedUpdate s then
    if Shape s =? CUSTOM_SHAPE then
      Cursor (UpdateCursor s)
        = (if CustomCursor s is Some c then Some c else Cursor s) ∧
      actors (UpdateCursor s) = actors s ∧
      mappers (UpdateCursor s) = mappers s
    else if Shape s =? SPHERE_SHAPE then
      cursor_made (SphereSource 16 16) (LineWidth NewActor) NewActor
        s (UpdateCursor s)
    else
      cursor_made (Cursor3DSource false true false false false) two NewActor
        s (UpdateCursor s)
  else UpdateCursor s = s.
Proof.
  unfold UpdateCursor.
  destruct (NeedUpdate s) eqn:Hdirty; simpl; [|done].
  destruct (Shape s =? CUSTOM_SHAPE) eqn:Hcustom.
  { by destruct (CustomCursor s) eqn:Hc; simpl; rewrite ?Hc. }
  destruct (Shape s =? SPHERE_SHAPE) eqn:Hsphere; simpl;
    (repeat (split; [done|]));
    exists (fresh (dom (actors s))), (fresh (dom (mappers s)));
    eexists _, _; simpl;
    (split; [done|]);
    (split; [apply fresh_actor_None|]);
    (split; [apply lookup_insert_eq|]);
    (split; [by intros p Hp; apply lookup_insert_ne|]);
    (split; [apply fresh_mapper_None|]);
    (split; [apply lookup_insert_eq|]);
    (split; [by intros q Hq; apply lookup_insert_ne|]);
    done.
Qed.

(** X15. [SetCustomCursor] does nothing for a null pointer or for the
    custom cursor already stored.  Otherwise it stores the pointer and
    nothing more (the stores of actors and mappers are not touched: nothing
    is allocated, copied or freed; the cursor in use stays), stamps the
    modification time, and the dirty flag is set when the shape is
    [CUSTOM_SHAPE] and keeps its value when it is not. *)
Theorem SetCustomCursor_spec (customCursor : option ActorPtr) (s : State) :
  let s' := SetCustomCursor customCursor s in
  if bool_decide (customCursor = None ∨ customCursor = CustomCursor s)
  then s' = s
  else
    CustomCursor s' = customCursor ∧
    NeedUpdate s' = (if Shape s =? CUSTOM_SHAPE then true else NeedUpdate s) ∧
    (NeedUpdate s' = true ↔ Shape s = CUSTOM_SHAPE ∨ NeedUpdate s = true) ∧
    s' = set_NeedUpdate (NeedUpdate s')
           (Modified (set_CustomCursor customCursor s)) ∧
    Shape s' = Shape s ∧ Cursor s' = Cursor s ∧
    actors s' = actors s ∧ mappers s' = mappers s.
Proof.
  unfold SetCustomCursor.
  destruct customCursor as [c|]; [|by rewrite bool_decide_eq_true_2; [|left]].
  destruct (decide (Some c = CustomCursor s)) as [Heq|Hne].
  - rewrite (bool_decide_eq_true_2 _ Heq); simpl.
    by rewrite bool_decide_eq_true_2; [|right].
  - rewrite (bool_decide_eq_false_2 _ Hne); simpl.
    rewrite bool_decide_eq_false_2 by (intros [?|?]; done).
    destruct (Z.eqb_spec (Shape s) CUSTOM_SHAPE) as [Hshape|Hshape]; simpl.
    + repeat split; auto.
    + repeat split; try done; try (by intros; right); try (by intros [?|?]);
        by destruct s.
Qed.

End ShapeProperties.

(** ** Properties of the masked pick *)

Section PickProperties.
Context `{env : Collaborators}.

Lemma mask_inv_init (orig : gmap MapperPtr Mapper) :
  mask_inv orig (mkMasking ∅ ∅ orig).
Proof.
  split; simpl.
  - intros m. rewrite !lookup_empty. by destruct (orig !! m).
  - intros m mp [? Hin]. by rewrite lookup_empty in Hin.
  - intros m mp [? Hin]. by rewrite lookup_empty in Hin.
Qed.

Lemma mask_point_inv orig mk m mp name :
  mask_inv orig mk → masked mk !! m = Some mp →
  PointIdArrayName mp = Some name →
  mask_inv orig
    (mkMasking (emplace m name (pointArrayNames mk)) (cellArrayNames mk)
       (alter (SetPointIdArrayName None) m (masked mk))).
Proof.
  intros [Hres Hpt Hcl] Hm Hname.
  assert (pointArrayNames mk !! m = None) as Hfree.
  { destruct (pointArrayNames mk !! m) eqn:E; [|done].
    rewrite (Hpt m mp) in Hname; [done| by rewrite E |done]. }
  unfold emplace. rewrite Hfree. split; simpl.
  - intros j. destruct (decide (m = j)) as [<-|Hne].
    + rewrite lookup_insert_eq, lookup_alter_eq, Hres, Hfree, Hm. simpl.
      f_equal. destruct mp; simpl in *; subst.
      by destruct (cellArrayNames mk !! m).
    + by rewrite lookup_insert_ne, lookup_alter_ne.
  - intros j mpj Hin. destruct (decide (m = j)) as [<-|Hne].
    + rewrite lookup_alter_eq, Hm. by intros [= <-].
    + rewrite lookup_insert_ne in Hin by done.
      rewrite lookup_alter_ne by done. by apply Hpt.
  - intros j mpj Hin. destruct (decide (m = j)) as [<-|Hne].
    + rewrite lookup_alter_eq, Hm. intros [= <-]. simpl. by apply (Hcl m).
    + rewrite lookup_alter_ne by done. by apply Hcl.
Qed.

Lemma mask_cell_inv orig mk m mp name :
  mask_inv orig mk → masked mk !! m = Some mp →
  CellIdArrayName mp = Some name →
  mask_inv orig
    (mkMasking (pointArrayNames mk) (emplace m name (cellArrayNames mk))
       (alter (SetCellIdArrayName None) m (masked mk))).
Proof.
  intros [Hres Hpt Hcl] Hm Hname.
  assert (cellArrayNames mk !! m = None) as Hfree.
  { destruct (cellArrayNames mk !! m) eqn:E; [|done].
    rewrite (Hcl m mp) in Hname; [done| by rewrite E |done]. }
  unfold emplace. rewrite Hfree. split; simpl.
  - intros j. destruct (decide (m = j)) as [<-|Hne].
    + rewrite lookup_insert_eq, lookup_alter_eq, Hres, Hfree, Hm. simpl.
      f_equal. destruct mp; simpl in *; subst.
      by destruct (pointArrayNames mk !! m).
    + by rewrite lookup_insert_ne, lookup_alter_ne.
  - intros j mpj Hin. destruct (decide (m = j)) as [<-|Hne].
    + rewrite lookup_alter_eq, Hm. intros [= <-]. simpl. by apply (Hpt m).
    + rewrite lookup_alter_ne by done. by apply Hpt.
  - intros j mpj Hin. destruct (decide (m = j)) as [<-|Hne].
    + rewrite lookup_alter_eq, Hm. by intros [= <-].
    + rewrite lookup_insert_ne in Hin by done.
      rewrite lookup_alter_ne by done. by apply Hcl.
Qed.

Lemma mask_actor_inv orig acts mk actor mk' :
  mask_inv orig mk → mask_actor acts mk actor = Some mk' →
  mask_inv orig mk'.
Proof.
  intros Hinv. unfold mask_actor.
  destruct (acts !! actor) as [a|]; simpl; [|done].
  destruct (GetMapper a) as [m|]; [|by intros [= <-]].
  destruct (masked mk !! m) as [mp|] eqn:Hm; simpl; [|done].
  destruct (IsOpenGLPolyDataMapper mp); [|by intros [= <-]].
  intros [= <-].
  destruct (PointIdArrayName mp) as [pn|] eqn:Hpn.
  - pose proof (mask_point_inv _ _ _ _ _ Hinv Hm Hpn) as Hinv1.
    destruct (CellIdArrayName mp) as [cn|] eqn:Hcn; [|done].
    eapply (mask_cell_inv _ _ m (SetPointIdArrayName None mp)) in Hinv1;
      [exact Hinv1 | simpl; by rewrite lookup_alter_eq, Hm | done].
  - destruct (CellIdArrayName mp) as [cn|] eqn:Hcn; [|done].
    by apply (mask_cell_inv _ _ _ mp).
Qed.

Lemma mask_actors_inv orig acts actorcol : ∀ mk mk',
  mask_inv orig mk → mask_actors acts mk actorcol = Some mk' →
  mask_inv orig mk'.
Proof.
  induction actorcol as [|actor rest IH]; simpl; intros mk mk' Hinv.
  - by intros [= <-].
  - destruct (mask_actor acts mk actor) as [mk1|] eqn:Hstep; [|done].
    apply IH. by eapply mask_actor_inv.
Qed.

(** One restore loop, mapper by mapper. *)
Lemma restore_loop_lookup (f : string → Mapper → Mapper)
    (names : gmap MapperPtr string) (ms : gmap MapperPtr Mapper) j :
  map_fold (λ mapper name acc, alter (f name) mapper acc) ms names !! j
  = (if names !! j is Some name then f name else id) <$> ms !! j.
Proof.
  apply (map_fold_weak_ind (λ r names,
    r !! j = (if names !! j is Some name then f name else id) <$> ms !! j)).
  - rewrite lookup_empty. by destruct (ms !! j).
  - intros i x m r Hi IH. destruct (decide (i = j)) as [<-|Hne].
    + rewrite lookup_alter_eq, lookup_insert_eq, IH, Hi.
      by destruct (ms !! i).
    + by rewrite lookup_alter_ne, lookup_insert_ne.
Qed.

Lemma restore_names_lookup (mk : Masking) j :
  restore_names mk !! j
  = restore1 (pointArrayNames mk !! j) (cellArrayNames mk !! j)
      <$> masked mk !! j.
Proof.
  unfold restore_names. rewrite !restore_loop_lookup. unfold restore1.
  destruct (masked mk !! j); simpl; [|done].
  by destruct (pointArrayNames mk !! j), (cellArrayNames mk !! j).
Qed.

(** The mask and restore loops cancel out. *)
Lemma restore_names_mask_actors acts orig actorcol mk :
  mask_actors acts (mkMasking ∅ ∅ orig) actorcol = Some mk →
  restore_names mk = orig.
Proof.
  intros Hmask. apply map_eq. intros j.
  rewrite restore_names_lookup. symmetry.
  eapply inv_restore, mask_actors_inv; [apply mask_inv_init | done].
Qed.

(** The shape of a call of [WidgetInteraction] that returns. *)
Lemma WidgetInteraction_Returned newEventPos s s' :
  WidgetInteraction newEventPos s = Returned tt s' →
  (Renderer s = None ∧ s' = s) ∨
  ∃ ren mk pos c a,
    Renderer s = Some ren ∧
    mask_actors (actors s) (mkMasking ∅ ∅ (mappers s)) (GetActors ren)
      = Some mk ∧
    Pick newEventPos.1 newEventPos.2 zero ren (actors s) (masked mk)
      = PickReturns pos ∧
    Cursor s = Some c ∧ actors s !! c = Some a ∧
    s' = set_actors (<[c := SetPosition pos a]> (actors s))
           (set_PickPosition pos s).
Proof.
  unfold WidgetInteraction.
  destruct (Renderer s) as [ren|] eqn:Hren; [|intros [= <-]; by left].
  destruct (mask_actors _ _ _) as [mk|] eqn:Hmask; [|done].
  simpl. destruct (Pick _ _ _ _ _ _) as [pos|] eqn:Hpick; [|done].
  destruct (Cursor s) as [c|] eqn:Hc; [|done].
  destruct (actors s !! c) as [a|] eqn:Ha; [|done].
  intros [= <-]. right. exists ren, mk, pos, c, a.
  repeat (split; [done|]).
  unfold set_actors, set_mappers, set_PickPosition; simpl.
  rewrite (restore_names_mask_actors _ _ _ _ Hmask).
  by destruct s.
Qed.

End PickProperties.

Section PickTheorems.
Context `{env : Collaborators}.

Lemma mask_actor_alive acts mk actor mk' :
  mask_actor acts mk actor = Some mk' →
  ∀ m, is_Some (masked mk' !! m) ↔ is_Some (masked mk !! m).
Proof.
  unfold mask_actor.
  destruct (acts !! actor) as [a|]; simpl; [|done].
  destruct (GetMapper a) as [mapper|]; [|by intros [= <-]].
  destruct (masked mk !! mapper) as [mp|] eqn:Hm; simpl; [|done].
  destruct (IsOpenGLPolyDataMapper mp); [|by intros [= <-]].
  intros [= <-] m.
  destruct (PointIdArrayName mp), (CellIdArrayName mp); simpl;
    rewrite ?lookup_alter_is_Some; done.
Qed.

(** The traversal succeeds on a scene whose pointers are all alive. *)
Lemma mask_actors_total acts actorcol : ∀ mk,
  scene_alive acts (masked mk) actorcol →
  is_Some (mask_actors acts mk actorcol).
Proof.
  induction actorcol as [|actor rest IH]; simpl; intros mk Halive; [done|].
  apply Forall_cons in Halive as [(a & Ha & Hmapper) Hrest].
  assert (is_Some (mask_actor acts mk actor)) as [mk1 Hstep].
  { unfold mask_actor. rewrite Ha; simpl.
    destruct (GetMapper a) as [m|]; [|done].
    destruct (Hmapper m eq_refl) as [mp Hmp]. rewrite Hmp; simpl.
    by destruct (IsOpenGLPolyDataMapper mp). }
  rewrite Hstep. apply IH.
  eapply Forall_impl; [exact Hrest|]. intros p (b & Hb & Hbm).
  exists b. split; [done|]. intros m Hm.
  by apply (mask_actor_alive _ _ _ _ Hstep), Hbm.
Qed.

(** When nothing dangles and the picker does not throw,
    [WidgetInteraction] returns. *)
Lemma WidgetInteraction_returns newEventPos s :
  (∀ ren, Renderer s = Some ren →
          scene_alive (actors s) (mappers s) (GetActors ren)) →
  cursor_alive s →
  (∀ x y z ren acts ms, Pick x y z ren acts ms ≠ PickThrows) →
  ∃ s', WidgetInteraction newEventPos s = Returned tt s'.
Proof.
  intros Hscene (c & Hc & a & Ha) Hpick. unfold WidgetInteraction.
  destruct (Renderer s) as [ren|]; [|by eexists].
  destruct (mask_actors_total (actors s) (GetActors ren)
              (mkMasking ∅ ∅ (mappers s)) (Hscene ren eq_refl)) as [mk ->].
  simpl. destruct (Pick _ _ _ _ _ _) as [pos|] eqn:Hp;
    [|by apply Hpick in Hp].
  rewrite Hc, Ha. by eexists.
Qed.

(** C1 (amended). After every call of [WidgetInteraction] that returns, the
    store of mappers, and with it the point and cell identifier array name of
    every mapper, is what it was before the call, whatever position the pick
    found. *)
Theorem WidgetInteraction_restores_names newEventPos s s' :
  WidgetInteraction newEventPos s = Returned tt s' →
  mappers s' = mappers s ∧
  ∀ m, (PointIdArrayName <$> mappers s' !! m
          = PointIdArrayName <$> mappers s !! m) ∧
       (CellIdArrayName <$> mappers s' !! m
          = CellIdArrayName <$> mappers s !! m).
Proof.
  intros Hret.
  assert (mappers s' = mappers s) as Heq.
  { apply WidgetInteraction_Returned in Hret
      as [[_ ->]|(ren & mk & pos & c & a & _ & _ & _ & _ & _ & ->)]; done. }
  split; [done|]. intros m. by rewrite Heq.
Qed.

(** C7. Without a renderer [WidgetInteraction] does nothing.  With a renderer,
    whenever the picker returns a position, finite or not, the call returns
    and the cursor actor sits at exactly that position. *)
Theorem WidgetInteraction_sets_position newEventPos s :
  (Renderer s = None → WidgetInteraction newEventPos s = Returned tt s) ∧
  (∀ ren mk pos c a,
     Renderer s = Some ren →
     mask_actors (actors s) (mkMasking ∅ ∅ (mappers s)) (GetActors ren)
       = Some mk →
     Pick newEventPos.1 newEventPos.2 zero ren (actors s) (masked mk)
       = PickReturns pos →
     Cursor s = Some c → actors s !! c = Some a →
     ∃ s', WidgetInteraction newEventPos s = Returned tt s' ∧
           Cursor s' = Some c ∧
           actors s' !! c = Some (SetPosition pos a) ∧
           cursor_position s' = Some pos).
Proof.
  unfold WidgetInteraction. split.
  - by intros ->.
  - intros ren mk pos c a -> -> Hpick Hc Ha. simpl.
    rewrite Hpick. simpl. rewrite Hc, Ha.
    eexists. split; [done|]. simpl. split; [done|].
    unfold cursor_position. simpl. rewrite Hc. simpl.
    by rewrite lookup_insert_eq.
Qed.

(** C10 (amended). A call of [WidgetInteraction] with a renderer, however
    it ends.  When it returns, it has changed the position of the cursor
    actor and nothing else of the cursor: the shape, the custom cursor, the
    dirty flag, the cursor pointer and the cursor's scale are the same after
    the call, every other actor is untouched, and the mappers are back to
    what they were.  When it is left by an exception of the picker, the
    cursor has not changed at all, its position included, and the mappers
    differ from what they were in their identifier array names only, which
    are not restored.  It dereferences a null or dangling pointer only when
    the cursor, an actor of the renderer or the mapper of such an actor is
    not alive. *)
Theorem WidgetInteraction_frame newEventPos s ren :
  Renderer s = Some ren →
  match WidgetInteraction newEventPos s with
  | Returned _ s' =>
      Shape s' = Shape s ∧ CustomCursor s' = CustomCursor s ∧
      NeedUpdate s' = NeedUpdate s ∧ Cursor s' = Cursor s ∧
      Renderer s' = Renderer s ∧ HandleSize s' = HandleSize s ∧
      ValidPick s' = ValidPick s ∧ MTime s' = MTime s ∧
      mappers s' = mappers s ∧
      cursor_scale s' = cursor_scale s ∧
      ∃ pos, ∀ p,
        actors s' !! p
        = (λ a, if bool_decide (Cursor s = Some p) then SetPosition pos a
                else a) <$> actors s !! p
  | Thrown s' =>
      Shape s' = Shape s ∧ CustomCursor s' = CustomCursor s ∧
      NeedUpdate s' = NeedUpdate s ∧ Cursor s' = Cursor s ∧
      Renderer s' = Renderer s ∧ HandleSize s' = HandleSize s ∧
      ValidPick s' = ValidPick s ∧ MTime s' = MTime s ∧
      PickPosition s' = PickPosition s ∧
      actors s' = actors s ∧
      cursor_scale s' = cursor_scale s ∧
      cursor_position s' = cursor_position s ∧
      ∀ m, clear_names <$> mappers s' !! m = clear_names <$> mappers s !! m
  | Crashed =>
      ¬ (cursor_alive s ∧
         scene_alive (actors s) (mappers s) (GetActors ren))
  end.
Proof.
  intros Hren. unfold WidgetInteraction. rewrite Hren.
  destruct (mask_actors (actors s) (mkMasking ∅ ∅ (mappers s))
              (GetActors ren)) as [mk|] eqn:Hmask.
  2:{ intros [_ Hscene].
      destruct (mask_actors_total (actors s) (GetActors ren)
                  (mkMasking ∅ ∅ (mappers s)) Hscene) as [mk Hmk].
      congruence. }
  simpl. destruct (Pick _ _ _ _ _ _) as [pos|]; simpl.
  - destruct (Cursor s) as [c|] eqn:Hc.
    2:{ intros [(c & Hsome & _) _]. congruence. }
    destruct (actors s !! c) as [a|] eqn:Ha.
    2:{ intros [(c' & Hsome & a & Ha') _]. congruence. }
    simpl. repeat (split; [done|]). split.
    { by apply restore_names_mask_actors in Hmask. }
    split.
    + unfold cursor_scale. simpl. rewrite Hc. simpl.
      by rewrite lookup_insert_eq, Ha.
    + exists pos. intros p.
      destruct (decide (c = p)) as [<-|Hne].
      * by rewrite lookup_insert_eq, Ha, bool_decide_eq_true_2.
      * rewrite lookup_insert_ne by done.
        rewrite bool_decide_eq_false_2 by congruence.
        by destruct (actors s !! p).
  - repeat (split; [done|]). intros m.
    pose proof (mask_actors_inv (mappers s) _ _ _ _
                  (mask_inv_init (mappers s)) Hmask) as Hinv.
    rewrite (inv_restore _ _ Hinv m).
    destruct (masked mk !! m) as [mp|]; simpl; [|done].
    f_equal. unfold restore1, clear_names.
    by destruct (pointArrayNames mk !! m), (cellArrayNames mk !! m).
Qed.

End PickTheorems.

(** ** A fact of binary64 arithmetic *)

Lemma shr_1_even (p : positive) :
  shr_1 (Build_shr_record (Z.pos p~0) false false)
  = Build_shr_record (Z.pos p) false false.
Proof. reflexivity. Qed.

(** Multiplying a binary64 number by 1.0 is exact. *)
Lemma mul_one_r (x : double) : valid x = true → mul x one = x.
Proof.
  unfold valid, mul, one. destruct x as [sx|sx| |sx m e]; simpl; intros Hv.
  - by rewrite xorb_false_r.
  - by rewrite xorb_false_r.
  - done.
  - apply andb_prop in Hv as [Hcanon Hle].
    unfold canonical_mantissa in Hcanon. apply Z.eqb_eq in Hcanon.
    rewrite xorb_false_r, Pos.mul_comm.
    unfold binary_round_aux, shr_fexp.
    cbv [Pos.mul].
    cbv [Zdigits2 digits2_pos shr_record_of_loc]. fold digits2_pos.
    rewrite !Pos2Z.inj_succ.
    replace (fexp prec emax _) with e
      by (rewrite <- Hcanon at 1; f_equal; lia).
    replace (e - (e + -52)) with 52 by lia.
    cbv [shr SpecFloat.iter_pos]. rewrite !shr_1_even.
    cbv [shr_m loc_of_shr_record round_nearest_even].
    replace (e + -52 + 52) with e by lia.
    cbv [Zdigits2]. rewrite Hcanon, Z.sub_diag.
    cbv [shr_m]. by rewrite Hle.
Qed.

Lemma MultiplyScalar_one (v : Vec3) :
  valid3 v = true → MultiplyScalar v one = v.
Proof.
  destruct v as [[x y] z]. unfold valid3, MultiplyScalar.
  intros [[Hx Hy]%andb_prop Hz]%andb_prop.
  by rewrite !mul_one_r.
Qed.

(** ** Properties of the rescaling *)

Section RescaleProperties.
Context `{env : Collaborators}.

Lemma UpdateCursor_clean (s : State) : NeedUpdate (UpdateCursor s) = false.
Proof.
  unfold UpdateCursor. destruct (NeedUpdate s) eqn:Hdirty; simpl; [|done].
  destruct (Shape s =? CUSTOM_SHAPE); [by destruct (CustomCursor s)|].
  by destruct (Shape s =? SPHERE_SHAPE).
Qed.

Lemma UpdateCursor_idle (s : State) : NeedUpdate s = false → UpdateCursor s = s.
Proof. intros Hclean. unfold UpdateCursor. by rewrite Hclean. Qed.

(** A NaN target size makes the ratio NaN. *)
Lemma sizeRatio_nan (s : State) (a : Actor) :
  isnan (targetSize s a) = true → isnan (sizeRatio s a) = true.
Proof.
  unfold sizeRatio, div, mul. by destruct (targetSize s a).
Qed.

(** C4. When the bounds of the cursor actor have zero width,
    [BuildRepresentation] returns right after the lazy rebuild: no division
    is executed and no actor is written, so the scale stays as it was.  In
    any call, a division that is executed has a divisor that is not zero. *)
Theorem BuildRepresentation_zero_width (s : State) :
  (∀ c a,
     Cursor (UpdateCursor s) = Some c →
     actors (UpdateCursor s) !! c = Some a →
     eqb (cursorWidth (UpdateCursor s) a) zero = true →
     BuildRepresentation s = ([], Returned tt (UpdateCursor s)) ∧
     cursor_scale (UpdateCursor s) = Some (Scale a)) ∧
  (∀ num den,
     Division num den ∈ (BuildRepresentation s).1 → eqb den zero = false).
Proof.
  split.
  - intros c a Hc Ha Hzero. unfold BuildRepresentation, cursor_scale.
    rewrite Hc; simpl. by rewrite Ha, Hzero.
  - intros num den. unfold BuildRepresentation.
    destruct (Cursor (UpdateCursor s)) as [c|]; [|by intros ?%elem_of_nil].
    destruct (actors (UpdateCursor s) !! c) as [a|];
      [|by intros ?%elem_of_nil].
    destruct (eqb (cursorWidth (UpdateCursor s) a) zero) eqn:Hw;
      [by intros ?%elem_of_nil|].
    destruct (isnan (sizeRatio (UpdateCursor s) a)); simpl;
      intros [= -> ->]%list_elem_of_singleton; done.
Qed.

(** C5 (amended). When the ratio [2 * targetSize / width] is NaN, and in
    particular when the target size is NaN, [BuildRepresentation] returns
    without writing any actor: the state, and with it the scale, is the one
    left by the lazy rebuild. *)
Theorem BuildRepresentation_nan_ratio (s : State) (c : ActorPtr) (a : Actor) :
  Cursor (UpdateCursor s) = Some c →
  actors (UpdateCursor s) !! c = Some a →
  isnan (sizeRatio (UpdateCursor s) a) = true ∨
  isnan (targetSize (UpdateCursor s) a) = true →
  (BuildRepresentation s).2 = Returned tt (UpdateCursor s) ∧
  cursor_scale (UpdateCursor s) = Some (Scale a).
Proof.
  intros Hc Ha Hnan.
  assert (isnan (sizeRatio (UpdateCursor s) a) = true) as Hratio
    by (destruct Hnan; [done | by apply sizeRatio_nan]).
  unfold BuildRepresentation, cursor_scale. rewrite Hc; simpl. rewrite Ha.
  split; [|done].
  destruct (eqb (cursorWidth (UpdateCursor s) a) zero); [done|].
  by rewrite Hratio.
Qed.

Lemma BuildRepresentation_clean (s s1 : State) :
  (BuildRepresentation s).2 = Returned tt s1 → NeedUpdate s1 = false.
Proof.
  unfold BuildRepresentation. pose proof (UpdateCursor_clean s) as Hclean.
  destruct (Cursor (UpdateCursor s)) as [c|]; [|done].
  destruct (actors (UpdateCursor s) !! c) as [a|]; [|done].
  destruct (eqb (cursorWidth (UpdateCursor s) a) zero); [by intros [= <-]|].
  destruct (isnan (sizeRatio (UpdateCursor s) a)); by intros [= <-].
Qed.

(** Let a first [BuildRepresentation] return.  A second one leaves the
    whole state, and so the scale, exactly as the first one left it whenever
    the ratio it computes is exactly 1.0 (the bounds now span twice the
    target size), and also whenever it takes one of its two early exits.
    Whether the second ratio is 1.0 is decided by [GetBounds], which is not
    part of this file. *)
Theorem BuildRepresentation_twice (s s1 : State) (c : ActorPtr) (a : Actor) :
  (BuildRepresentation s).2 = Returned tt s1 →
  Cursor s1 = Some c → actors s1 !! c = Some a →
  valid3 (Scale a) = true →
  sizeRatio s1 a = one ∨ eqb (cursorWidth s1 a) zero = true ∨
  isnan (sizeRatio s1 a) = true →
  (BuildRepresentation s1).2 = Returned tt s1 ∧
  cursor_scale s1 = Some (Scale a).
Proof.
  intros Hfirst Hc Ha Hvalid Hratio.
  apply BuildRepresentation_clean in Hfirst.
  split; [|unfold cursor_scale; rewrite Hc; simpl; by rewrite Ha].
  unfold BuildRepresentation.
  rewrite (UpdateCursor_idle _ Hfirst), Hc, Ha.
  destruct (eqb (cursorWidth s1 a) zero) eqn:Hw; [done|].
  destruct (isnan (sizeRatio s1 a)) eqn:Hnan; [done|].
  destruct Hratio as [Hone|[?|?]]; [|done..].
  rewrite Hone, MultiplyScalar_one by done. simpl. f_equal.
  assert (SetScale (Scale a) a = a) as -> by by destruct a.
  rewrite insert_id by done. by destruct s1.
Qed.

End RescaleProperties.

(** ** The cursor actor over the lifetime of the representation *)

Section LifetimeProperties.
Context `{env : Collaborators}.

(** A state that keeps the two pointers and loses no actor stays alive. *)
Lemma alive_mono (s s' : State) :
  Cursor s' = Cursor s → CustomCursor s' = CustomCursor s →
  (∀ p, is_Some (actors s !! p) → is_Some (actors s' !! p)) →
  alive s → alive s'.
Proof.
  intros Hcur Hcus Hmono [(c & Hc & Ha) Hcustom]. split.
  - exists c. rewrite Hcur. auto.
  - intros p. rewrite Hcus. auto.
Qed.

Lemma UpdateCursor_alive (s : State) :
  custom_alive s →
  cursor_alive s ∨ (NeedUpdate s = true ∧ Shape s ≠ CUSTOM_SHAPE) →
  alive (UpdateCursor s).
Proof.
  intros Hcustom Hcursor. unfold UpdateCursor.
  destruct (NeedUpdate s) eqn:Hdirty; simpl;
    [|destruct Hcursor as [?|[? _]]; done].
  destruct (Z.eqb_spec (Shape s) CUSTOM_SHAPE) as [Hshape|Hshape].
  - destruct Hcursor as [Hcursor|[_ ?]]; [|done].
    destruct (CustomCursor s) as [c0|] eqn:Hc0.
    + split; [|by intros p; simpl; rewrite Hc0; intros [= <-]; apply Hcustom].
      exists c0. split; [done|]. by apply Hcustom.
    + by apply (alive_mono s).
  - destruct (Shape s =? SPHERE_SHAPE).
    + eapply cursor_built_alive; [apply CreateSphereCursor_built | done].
    + eapply cursor_built_alive; [apply CreateCrossCursor_built | done].
Qed.

Lemma BuildRepresentation_alive (s : State) :
  alive s →
  ∃ evs s', BuildRepresentation s = (evs, Returned tt s') ∧ alive s'.
Proof.
  intros [Hcursor Hcustom].
  pose proof (UpdateCursor_alive s Hcustom (or_introl Hcursor)) as Halive.
  unfold BuildRepresentation.
  pose proof Halive as [(c & Hc & a & Ha) _].
  rewrite Hc, Ha.
  destruct (eqb _ zero); [by eauto|].
  destruct (isnan _); [by eauto|].
  eexists _, _. split; [done|].
  apply (alive_mono (UpdateCursor s)); try done.
  intros p Hp. simpl. rewrite lookup_insert_is_Some.
  destruct (decide (c = p)); auto.
Qed.

Lemma WidgetInteraction_Thrown newEventPos s s' :
  WidgetInteraction newEventPos s = Thrown s' →
  ∃ ms, s' = set_mappers ms s.
Proof.
  unfold WidgetInteraction.
  destruct (Renderer s) as [ren|]; [|done].
  destruct (mask_actors _ _ _) as [mk|]; [|done]. simpl.
  destruct (Pick _ _ _ _ _ _); [|intros [= <-]; by eexists].
  destruct (Cursor s) as [c|]; [|done].
  by destruct (actors s !! c).
Qed.

Lemma SetCursorShape_alive shape s : alive s → alive (SetCursorShape shape s).2.
Proof.
  unfold SetCursorShape.
  destruct (_ || _); [done|]. destruct (negb _); [|done].
  by apply alive_mono.
Qed.

Lemma SetCustomCursor_alive customCursor s :
  (∀ c, customCursor = Some c → is_Some (actors s !! c)) →
  alive s → alive (SetCustomCursor customCursor s).
Proof.
  intros Hnew [Hcursor Hcustom]. unfold SetCustomCursor.
  destruct customCursor as [c|]; [|done].
  destruct (negb _); [|done]. simpl.
  destruct (Shape s =? CUSTOM_SHAPE);
    (split; [done | intros p; simpl; apply Hnew]).
Qed.

Lemma exec_alive call s s' :
  admissible call s → exec call s = Some s' → alive s → alive s'.
Proof.
  destruct call as [shape|cc|cc|ren|pos| |viewport| ]; simpl;
    intros Hadm Hexec Halive.
  - injection Hexec as <-. by apply SetCursorShape_alive.
  - injection Hexec as <-. apply SetCustomCursor_alive; [|done].
    by intros c ->.
  - injection Hexec as <-. unfold SetCursor.
    pose proof (SetCursorShape_alive CUSTOM_SHAPE s Halive) as Halive1.
    assert (actors (SetCursorShape CUSTOM_SHAPE s).2 = actors s) as Hsame.
    { unfold SetCursorShape. destruct (_ || _); [done|].
      by destruct (negb _). }
    destruct (SetCursorShape CUSTOM_SHAPE s) as [evs s1]. simpl in *.
    apply SetCustomCursor_alive; [|done].
    intros c ->. by rewrite Hsame.
  - injection Hexec as <-. by apply (alive_mono s).
  - destruct (WidgetInteraction pos s) as [[] s1|s1|] eqn:Hcall;
      simpl in Hexec; [| |done]; injection Hexec as <-.
    + apply WidgetInteraction_Returned in Hcall
        as [[_ ->]|(r & mk & p & c & a & _ & _ & _ & Hc & Ha & ->)]; [done|].
      apply (alive_mono s); try done.
      intros q Hq. simpl. rewrite lookup_insert_is_Some.
      destruct (decide (c = q)); auto.
    + apply WidgetInteraction_Thrown in Hcall as [ms ->].
      by apply (alive_mono s).
  - destruct (BuildRepresentation_alive s Halive) as (evs & s1 & Hb & Ha).
    rewrite Hb in Hexec. by injection Hexec as <-.
  - unfold RenderOpaqueGeometry in Hexec.
    destruct (BuildRepresentation_alive s Halive)
      as (evs & s1 & Hb & [(c & Hc & a & Ha) Hcustom]).
    rewrite Hb, Hc, Ha in Hexec. injection Hexec as <-.
    split; [exists c; eauto | done].
  - unfold ReleaseGraphicsResources in Hexec.
    destruct (Cursor s) as [c|]; [|done].
    destruct (actors s !! c); [|done]. by injection Hexec as <-.
Qed.

Lemma New_alive heap_actors heap_mappers : alive (New heap_actors heap_mappers).
Proof.
  unfold New.
  set (s0 := mkState _ _ _ _ _ _ _ _ _ _ _).
  assert (alive (UpdateCursor s0)) as Halive.
  { apply UpdateCursor_alive; [done|]. right. by split. }
  by apply (alive_mono (UpdateCursor s0)).
Qed.

Lemma reachable_alive (s : State) : reachable s → alive s.
Proof.
  induction 1 as [acts ms|s call s' _ IH Hadm Hexec].
  - apply New_alive.
  - by eapply exec_alive.
Qed.

(** C9. At every point of the lifetime of a representation, right after
    construction included, [ReleaseGraphicsResources] and
    [RenderOpaqueGeometry] reach a live cursor actor and return: the
    constructor has built a cross cursor, and no later call removes it. *)
Theorem cursor_calls_safe (s : State) :
  reachable s →
  cursor_alive s ∧
  (∀ (Window : Type) (win : Window),
     ReleaseGraphicsResources win s = Returned tt s) ∧
  (∀ viewport, ∃ evs status s',
     RenderOpaqueGeometry viewport s = (evs, Returned status s')).
Proof.
  intros Halive%reachable_alive. split; [apply Halive|]. split.
  - intros Window win. destruct Halive as [(c & Hc & a & Ha) _].
    unfold ReleaseGraphicsResources. by rewrite Hc, Ha.
  - intros viewport. unfold RenderOpaqueGeometry.
    destruct (BuildRepresentation_alive s Halive)
      as (evs & s1 & -> & [(c & Hc & a & Ha) _]).
    rewrite Hc, Ha. by eexists _, _, _.
Qed.

End LifetimeProperties.

(** ** The statements at work on a concrete scene *)

Section Scenes.
Import Demo.

(** A pick in the scene of renderer 1: the names cleared on the shared
    mapper are back afterwards. *)
Lemma WidgetInteraction_restores_names_witness :
  WidgetInteraction (env := steady) (one, two) bound_rep
    = Returned tt picked_rep ∧
  mappers picked_rep = mappers bound_rep.
Proof.
  assert (WidgetInteraction (env := steady) (one, two) bound_rep
            = Returned tt picked_rep) as Hcall by (vm_compute; reflexivity).
  split; [exact Hcall|].
  exact (proj1 (WidgetInteraction_restores_names (env := steady)
                  (one, two) bound_rep picked_rep Hcall)).
Defined.

(** C1, as stated, fails when the picker throws: the exception leaves
    [WidgetInteraction] before the restore loops, and the names cleared by
    the mask stay cleared. *)
Lemma WidgetInteraction_fault_keeps_mask :
  WidgetInteraction (env := faulty) (one, one) bound_rep = Thrown masked_rep ∧
  PointIdArrayName <$> mappers bound_rep !! 20%positive
    = Some (Some "vtkOriginalPointIds"%string) ∧
  PointIdArrayName <$> mappers masked_rep !! 20%positive = Some None ∧
  CellIdArrayName <$> mappers bound_rep !! 20%positive
    = Some (Some "vtkOriginalCellIds"%string) ∧
  CellIdArrayName <$> mappers masked_rep !! 20%positive = Some None.
Proof. repeat split; vm_compute; reflexivity. Qed.

(** Shape 99 is refused. *)
Lemma SetCursorShape_out_of_range_witness :
  SetCursorShape 99 fresh_rep = ([Warning shape_warning], fresh_rep).
Proof. apply (SetCursorShape_out_of_range 99 fresh_rep). by right. Defined.

(** A custom cursor without geometry is not rescaled. *)
Lemma BuildRepresentation_zero_width_witness :
  BuildRepresentation (env := steady) flat_rep
    = ([], Returned tt (UpdateCursor (env := steady) flat_rep)) ∧
  cursor_scale (UpdateCursor (env := steady) flat_rep)
    = Some (Scale default_actor).
Proof.
  apply (proj1 (BuildRepresentation_zero_width (env := steady) flat_rep)
           13%positive default_actor); vm_compute; reflexivity.
Defined.

(** After a pick that found no intersection the cursor is not rescaled. *)
Lemma BuildRepresentation_nan_ratio_witness :
  (BuildRepresentation (env := steady) missed_rep).2
    = Returned tt (UpdateCursor (env := steady) missed_rep) ∧
  cursor_scale (UpdateCursor (env := steady) missed_rep)
    = Some (Scale (cursor_actor missed_rep)).
Proof.
  apply (BuildRepresentation_nan_ratio (env := steady) missed_rep
           (cursor_ptr missed_rep) (cursor_actor missed_rep));
    [vm_compute; reflexivity.. | right; vm_compute; reflexivity].
Defined.

(** C5, as stated, fails for a ratio that is infinite: only NaN is tested,
    so a ratio that overflows is multiplied into the scale. *)
Lemma BuildRepresentation_infinite_ratio :
  Cursor tiny_rep = Some 14%positive ∧
  actors tiny_rep !! 14%positive = Some (cursor_actor tiny_rep) ∧
  sizeRatio (env := steady) tiny_rep (cursor_actor tiny_rep) = infinity ∧
  isfinite (sizeRatio (env := steady) tiny_rep (cursor_actor tiny_rep))
    = false ∧
  (BuildRepresentation (env := steady) tiny_rep).2 = Returned tt tiny_once ∧
  cursor_scale tiny_rep = Some (tiny, tiny, tiny) ∧
  cursor_scale tiny_once = Some (infinity, infinity, infinity).
Proof. repeat split; vm_compute; reflexivity. Qed.

(** The cross cursor at the origin: the second ratio is exactly 1.0. *)
Lemma BuildRepresentation_twice_witness :
  (BuildRepresentation (env := steady) cross_once).2 = Returned tt cross_once ∧
  cursor_scale cross_once = Some (Scale (cursor_actor cross_once)).
Proof.
  apply (BuildRepresentation_twice (env := steady) fresh_rep cross_once
           (cursor_ptr cross_once) (cursor_actor cross_once));
    [vm_compute; reflexivity.. | left; vm_compute; reflexivity].
Defined.

(** In the scene of [steady], where the bounds of an actor are computed
    from its position and scale in [double] arithmetic, a sphere cursor at
    x = 1/3 is rescaled twice: the width after the first rescaling is not
    exactly twice the target size, and the second rescaling changes the
    scale in its last place, with position and camera unchanged. *)
Lemma BuildRepresentation_twice_differs :
  (BuildRepresentation (env := steady) sphere_rep).2
    = Returned tt sphere_once ∧
  (BuildRepresentation (env := steady) sphere_once).2
    = Returned tt sphere_twice ∧
  cursor_position sphere_once = cursor_position sphere_rep ∧
  cursor_position sphere_twice = cursor_position sphere_rep ∧
  eqb (cursorWidth (env := steady) sphere_rep (cursor_actor sphere_rep)) zero
    = false ∧
  eqb (cursorWidth (env := steady) sphere_once (cursor_actor sphere_once)) zero
    = false ∧
  sizeRatio (env := steady) sphere_once (cursor_actor sphere_once) ≠ one ∧
  cursor_scale sphere_twice ≠ cursor_scale sphere_once.
Proof.
  repeat apply conj; try (vm_compute; reflexivity);
    vm_compute; intros Heq; discriminate Heq.
Qed.

(** A pick without renderer, and a pick whose position has a NaN
    component. *)
Lemma WidgetInteraction_sets_position_witness :
  WidgetInteraction (env := steady) (nan, one) fresh_rep
    = Returned tt fresh_rep ∧
  ∃ s', WidgetInteraction (env := steady) (nan, one) bound_rep
          = Returned tt s' ∧
        Cursor s' = Some (cursor_ptr bound_rep) ∧
        actors s' !! cursor_ptr bound_rep
          = Some (SetPosition (nan, one, zero) (cursor_actor bound_rep)) ∧
        cursor_position s' = Some (nan, one, zero).
Proof.
  split.
  - apply (proj1 (WidgetInteraction_sets_position (env := steady)
                    (nan, one) fresh_rep)).
    vm_compute; reflexivity.
  - apply (proj2 (WidgetInteraction_sets_position (env := steady)
                    (nan, one) bound_rep)
             1%positive bound_mask (nan, one, zero)
             (cursor_ptr bound_rep) (cursor_actor bound_rep));
      vm_compute; reflexivity.
Defined.

(** Right after construction. *)
Lemma cursor_calls_safe_witness :
  cursor_alive fresh_rep ∧
  (∀ (Window : Type) (win : Window),
     ReleaseGraphicsResources win fresh_rep = Returned tt fresh_rep) ∧
  (∀ viewport, ∃ evs status s',
     RenderOpaqueGeometry (env := steady) viewport fresh_rep
       = (evs, Returned status s')).
Proof.
  exact (cursor_calls_safe (env := steady) fresh_rep
           (reachable_New scene_actors scene_mappers)).
Defined.

(** A pick in the scene of renderer 1 moves the cursor and nothing else. *)
Lemma WidgetInteraction_frame_witness :
  Shape picked_rep = Shape bound_rep ∧
  CustomCursor picked_rep = CustomCursor bound_rep ∧
  NeedUpdate picked_rep = NeedUpdate bound_rep ∧
  Cursor picked_rep = Cursor bound_rep ∧
  Renderer picked_rep = Renderer bound_rep ∧
  HandleSize picked_rep = HandleSize bound_rep ∧
  ValidPick picked_rep = ValidPick bound_rep ∧
  MTime picked_rep = MTime bound_rep ∧
  mappers picked_rep = mappers bound_rep ∧
  cursor_scale picked_rep = cursor_scale bound_rep ∧
  ∃ pos, ∀ p,
    actors picked_rep !! p
    = (λ a, if bool_decide (Cursor bound_rep = Some p)
            then SetPosition pos a else a) <$> actors bound_rep !! p.
Proof.
  assert (WidgetInteraction (env := steady) (one, two) bound_rep
          = Returned tt picked_rep) as Hcall by (vm_compute; reflexivity).
  pose proof (WidgetInteraction_frame (env := steady) (one, two)
                bound_rep 1%positive eq_refl) as Hframe.
  rewrite Hcall in Hframe. exact Hframe.
Defined.

(** C10, as stated, fails when the picker throws: the call with renderer 1
    is left with the identifier array names of mapper 20 cleared, so that
    the write to the mappers outlives the call. *)
Lemma WidgetInteraction_fault_not_transient :
  Renderer bound_rep = Some 1%positive ∧
  WidgetInteraction (env := faulty) (one, one) bound_rep
    = Thrown masked_rep ∧
  mappers masked_rep ≠ mappers bound_rep ∧
  (mappers bound_rep !! 20%positive ≫= PointIdArrayName)
    = Some "vtkOriginalPointIds"%string ∧
  (mappers masked_rep !! 20%positive ≫= PointIdArrayName) = None ∧
  (mappers bound_rep !! 20%positive ≫= CellIdArrayName)
    = Some "vtkOriginalCellIds"%string ∧
  (mappers masked_rep !! 20%positive ≫= CellIdArrayName) = None.
Proof.
  split; [reflexivity|]. split; [vm_compute; reflexivity|]. split.
  - intros Heq.
    apply (f_equal (λ ms, ms !! 20%positive ≫= PointIdArrayName)) in Heq.
    vm_compute in Heq. discriminate Heq.
  - repeat split; vm_compute; reflexivity.
Qed.

End Scenes.

(** ** What the picker sees *)

Section MaskProperties.

Lemma reaches_app acts l1 l2 m :
  reaches acts (l1 ++ l2) m = reaches acts l1 m || reaches acts l2 m.
Proof. apply existsb_app. Qed.

Lemma reaches_one acts actor m :
  reaches acts [actor] m
  = bool_decide (acts !! actor ≫= GetMapper = Some m).
Proof. unfold reaches. simpl. apply orb_false_r. Qed.

Lemma traversed_init acts orig : traversed acts orig [] (mkMasking ∅ ∅ orig).
Proof.
  intros m. simpl. rewrite !lookup_empty. by destruct (orig !! m).
Qed.

(** The traversal does not look at an actor without mapper, or at one whose
    mapper has been handled, or is not an OpenGL mapper. *)
Lemma traversed_same acts orig done actor mk :
  traversed acts orig done mk →
  (∀ m mp, acts !! actor ≫= GetMapper = Some m → orig !! m = Some mp →
           reaches acts done m || negb (IsOpenGLPolyDataMapper mp) = true) →
  traversed acts orig (done ++ [actor]) mk.
Proof.
  intros Hdone Hsame m. rewrite reaches_app, reaches_one.
  destruct (Hdone m) as (Hm & Hp & Hc).
  destruct (orig !! m) as [mp|] eqn:Horig; simpl in *; [|done].
  case_bool_decide as Hhit; [|by rewrite orb_false_r].
  specialize (Hsame m mp Hhit Horig).
  destruct (reaches acts done m); simpl in *; [done|].
  apply negb_true_iff in Hsame. by rewrite Hsame in *.
Qed.

Lemma mask_actor_traversed acts orig done mk actor mk' :
  traversed acts orig done mk →
  mask_actor acts mk actor = Some mk' →
  traversed acts orig (done ++ [actor]) mk'.
Proof.
  intros Hdone. unfold mask_actor.
  destruct (acts !! actor) as [a|] eqn:Ha; simpl; [|done].
  destruct (GetMapper a) as [m0|] eqn:Hm0.
  2:{ intros [= <-]. apply traversed_same; [done|].
      intros m mp Hhit. rewrite Ha in Hhit. simpl in Hhit.
      by rewrite Hm0 in Hhit. }
  destruct (masked mk !! m0) as [cur|] eqn:Hcur; simpl; [|done].
  destruct (Hdone m0) as (Hm & Hp & Hc). rewrite Hcur in Hm.
  destruct (orig !! m0) as [mp|] eqn:Horig; simpl in *; [|done].
  assert (acts !! actor ≫= GetMapper = Some m0) as Hreach
    by (rewrite Ha; simpl; done).
  injection Hm as Hm.
  assert (IsOpenGLPolyDataMapper cur = IsOpenGLPolyDataMapper mp) as Hgl.
  { rewrite Hm. by destruct (_ && _). }
  rewrite Hgl.
  destruct (IsOpenGLPolyDataMapper mp) eqn:Hopen.
  2:{ intros [= <-]. apply traversed_same; [done|].
      intros m mp' Hhit Hmp'. rewrite Hreach in Hhit.
      injection Hhit as <-. rewrite Horig in Hmp'. injection Hmp' as <-.
      rewrite Hopen. apply orb_true_r. }
  destruct (reaches acts done m0) eqn:Hseen; simpl in *.
  { (* the mapper was cleared by an earlier actor *)
    rewrite Hm. simpl. intros [= <-]. apply traversed_same; [done|].
    intros m mp' Hhit _. rewrite Hreach in Hhit. injection Hhit as <-.
    by rewrite Hseen. }
  (* first visit *)
  subst cur. intros [= <-]. intros m.
  rewrite reaches_app, reaches_one.
  destruct (decide (m0 = m)) as [<-|Hne].
  - rewrite Hseen, Horig, (bool_decide_eq_true_2 _ Hreach). simpl.
    rewrite Hopen.
    destruct (PointIdArrayName mp) as [pn|] eqn:Hpn,
             (CellIdArrayName mp) as [cn|] eqn:Hcn; simpl;
      unfold emplace; simpl; rewrite ?Hp, ?Hc;
      rewrite ?lookup_alter_eq, ?lookup_insert_eq, ?Hcur; simpl;
      (split; [|by rewrite ?Hp, ?Hc]);
      f_equal; unfold clear_names; destruct mp; simpl in *; by subst.
  - assert (bool_decide (acts !! actor ≫= GetMapper = Some m) = false) as ->.
    { apply bool_decide_eq_false_2. rewrite Hreach. congruence. }
    rewrite orb_false_r. destruct (Hdone m) as (Hm' & Hp' & Hc').
    destruct (PointIdArrayName mp), (CellIdArrayName mp); simpl;
      unfold emplace; simpl; rewrite ?Hp, ?Hc;
      rewrite ?lookup_alter_ne, ?lookup_insert_ne by done; done.
Qed.

Lemma mask_actors_traversed acts orig rest : ∀ done mk mk',
  traversed acts orig done mk →
  mask_actors acts mk rest = Some mk' →
  traversed acts orig (done ++ rest) mk'.
Proof.
  induction rest as [|actor rest IH]; simpl; intros done mk mk' Hdone.
  - intros [= <-]. by rewrite app_nil_r.
  - destruct (mask_actor acts mk actor) as [mk1|] eqn:Hstep; [|done].
    intros Hrest.
    replace (done ++ actor :: rest) with ((done ++ [actor]) ++ rest)
      by (by rewrite <- app_assoc).
    eapply IH; [|done]. by eapply mask_actor_traversed.
Qed.

End MaskProperties.

(** ** Frames of the methods *)

Section FrameLemmas.
Context `{env : Collaborators}.

(** The fields [UpdateCursor] never writes. *)
Lemma UpdateCursor_fields (s : State) :
  Shape (UpdateCursor s) = Shape s ∧
  CustomCursor (UpdateCursor s) = CustomCursor s ∧
  Renderer (UpdateCursor s) = Renderer s ∧
  HandleSize (UpdateCursor s) = HandleSize s ∧
  ValidPick (UpdateCursor s) = ValidPick s ∧
  MTime (UpdateCursor s) = MTime s ∧
  PickPosition (UpdateCursor s) = PickPosition s.
Proof.
  unfold UpdateCursor. destruct (NeedUpdate s); simpl; [|done].
  destruct (Shape s =? CUSTOM_SHAPE);
    [by destruct (CustomCursor s) eqn:E; simpl; rewrite ?E|].
  by destruct (Shape s =? SPHERE_SHAPE).
Qed.

Lemma UpdateCursor_keeps_actor (s : State) p a :
  actors s !! p = Some a → actors (UpdateCursor s) !! p = Some a.
Proof.
  intros Hp. unfold UpdateCursor. destruct (NeedUpdate s); simpl; [|done].
  destruct (Shape s =? CUSTOM_SHAPE); [by destruct (CustomCursor s); simpl|].
  destruct (Shape s =? SPHERE_SHAPE); simpl;
    (rewrite lookup_insert_ne; [done|]);
    intros <-; by rewrite fresh_actor_None in Hp.
Qed.


(** The shape of a call of [BuildRepresentation] that returns. *)
Lemma BuildRepresentation_Returned (s s' : State) evs :
  BuildRepresentation s = (evs, Returned tt s') →
  ∃ c a,
    Cursor (UpdateCursor s) = Some c ∧
    actors (UpdateCursor s) !! c = Some a ∧
    if eqb (cursorWidth (UpdateCursor s) a) zero then
      evs = [] ∧ s' = UpdateCursor s
    else
      evs = [Division (mul two (targetSize (UpdateCursor s) a))
               (cursorWidth (UpdateCursor s) a)] ∧
      if isnan (sizeRatio (UpdateCursor s) a) then s' = UpdateCursor s
      else
        s' = set_actors
               (<[c := SetScale
                         (MultiplyScalar (Scale a)
                            (sizeRatio (UpdateCursor s) a)) a]>
                  (actors (UpdateCursor s)))
               (UpdateCursor s).
Proof.
  unfold BuildRepresentation.
  destruct (Cursor (UpdateCursor s)) as [c|]; [|done].
  destruct (actors (UpdateCursor s) !! c) as [a|] eqn:Ha; [|done].
  intros Hcall. exists c, a. split; [done|]. split; [done|].
  destruct (eqb (cursorWidth (UpdateCursor s) a) zero);
    [by injection Hcall as <- <-|].
  destruct (isnan (sizeRatio (UpdateCursor s) a));
    by injection Hcall as <- <-.
Qed.

(** The state in which a throwing picker leaves [WidgetInteraction]. *)
Lemma WidgetInteraction_Thrown_masked newEventPos s s' :
  WidgetInteraction newEventPos s = Thrown s' →
  ∃ ren mk,
    Renderer s = Some ren ∧
    mask_actors (actors s) (mkMasking ∅ ∅ (mappers s)) (GetActors ren)
      = Some mk ∧
    s' = set_mappers (masked mk) s.
Proof.
  unfold WidgetInteraction.
  destruct (Renderer s) as [ren|]; [|done].
  destruct (mask_actors _ _ _) as [mk|] eqn:Hmask; [|done]. simpl.
  destruct (Pick _ _ _ _ _ _); [|intros [= <-]; by exists ren, mk].
  destruct (Cursor s) as [c|]; [|done].
  by destruct (actors s !! c).
Qed.

(** [SetCursorShape] either leaves the state alone or stores a shape that
    is in range and marks the state dirty; it warns exactly when the shape
    is out of range. *)
Lemma SetCursorShape_cases shape s :
  (SetCursorShape shape s).2 = s ∨
  (CROSS_SHAPE ≤ shape ≤ CUSTOM_SHAPE ∧ shape ≠ Shape s ∧
   SetCursorShape shape s = ([], set_NeedUpdate true (set_Shape shape s))).
Proof.
  unfold SetCursorShape.
  destruct (Z.ltb_spec shape CROSS_SHAPE); simpl; [by left|].
  destruct (Z.gtb_spec shape CUSTOM_SHAPE); simpl; [by left|].
  destruct (Z.eqb_spec shape (Shape s)); simpl; [by left|].
  right. repeat split; [done | lia | done].
Qed.

(** The fields [SetCustomCursor] never writes, and a dirty flag it never
    clears. *)
Lemma SetCustomCursor_fields customCursor s :
  Shape (SetCustomCursor customCursor s) = Shape s ∧
  Cursor (SetCustomCursor customCursor s) = Cursor s ∧
  Renderer (SetCustomCursor customCursor s) = Renderer s ∧
  actors (SetCustomCursor customCursor s) = actors s ∧
  mappers (SetCustomCursor customCursor s) = mappers s ∧
  (NeedUpdate s = true → NeedUpdate (SetCustomCursor customCursor s) = true).
Proof.
  unfold SetCustomCursor. destruct customCursor; [|done].
  destruct (negb _); [|done]. simpl.
  by destruct (Shape s =? CUSTOM_SHAPE).
Qed.

(** What a call leaves of the shape, in terms of the shape before. *)
Lemma exec_Shape call s s' :
  exec call s = Some s' →
  Shape s' = Shape s ∨
  (CROSS_SHAPE ≤ Shape s' ≤ CUSTOM_SHAPE ∧ NeedUpdate s' = true).
Proof.
  destruct call as [shape|cc|cc|ren|pos| |viewport| ]; simpl.
  - intros [= <-].
    destruct (SetCursorShape_cases shape s) as [->|(Hin & _ & ->)];
      [by left | by right].
  - intros [= <-]. left. apply SetCustomCursor_fields.
  - intros [= <-]. unfold SetCursor.
    destruct (SetCustomCursor_fields cc (SetCursorShape CUSTOM_SHAPE s).2)
      as (Hshape & _ & _ & _ & _ & Hdirty).
    destruct (SetCursorShape CUSTOM_SHAPE s) as [evs s1] eqn:Hset.
    simpl in *. rewrite Hshape.
    destruct (SetCursorShape_cases CUSTOM_SHAPE s) as [Hs|(Hin & _ & Hs)];
      rewrite Hset in Hs; simpl in Hs.
    + left. by subst s1.
    + injection Hs as -> ->. right. split; [done | by apply Hdirty].
  - intros [= <-]. by left.
  - destruct (WidgetInteraction pos s) as [[] s1|s1|] eqn:Hcall; simpl;
      [| |done]; intros [= <-]; left.
    + by apply WidgetInteraction_Returned in Hcall
        as [[_ ->]|(r & mk & p & c & a & _ & _ & _ & _ & _ & ->)].
    + by apply WidgetInteraction_Thrown_masked in Hcall
        as (r & mk & _ & _ & ->).
  - destruct (BuildRepresentation s) as [evs [[] s1|s1|]] eqn:Hcall; simpl;
      [| |done]; intros [= <-]; left.
    + apply BuildRepresentation_Returned in Hcall as (cur & act & _ & _ & Hs).
      destruct (UpdateCursor_fields s) as (Hshape & _).
      destruct (eqb _ zero); [by destruct Hs as [_ ->]|].
      destruct Hs as [_ Hs]. destruct (isnan _); by subst s1.
    + unfold BuildRepresentation in Hcall.
      destruct (Cursor (UpdateCursor s)); [|done].
      destruct (actors (UpdateCursor s) !! _); [|done].
      destruct (eqb _ zero); [done|]. by destruct (isnan _).
  - unfold RenderOpaqueGeometry.
    destruct (BuildRepresentation s) as [evs [[] s1|s1|]] eqn:Hcall; simpl;
      [| |done].
    + destruct (Cursor s1) as [c1|]; [|done].
      destruct (actors s1 !! c1); [|done]. simpl. intros [= <-]. left.
      apply BuildRepresentation_Returned in Hcall as (cur & act & _ & _ & Hs).
      destruct (UpdateCursor_fields s) as (Hshape & _).
      destruct (eqb _ zero); [by destruct Hs as [_ ->]|].
      destruct Hs as [_ Hs]. destruct (isnan _); by subst s1.
    + unfold BuildRepresentation in Hcall.
      destruct (Cursor (UpdateCursor s)); [|done].
      destruct (actors (UpdateCursor s) !! _); [|done].
      destruct (eqb _ zero); [done|]. by destruct (isnan _).
  - unfold ReleaseGraphicsResources. destruct (Cursor s) as [c|]; [|done].
    destruct (actors s !! c); [|done]. intros [= <-]. by left.
Qed.

(** A rebuild to a cross or a sphere: the cursor is an actor that did not
    exist, placed and scaled like a newly constructed actor. *)
Lemma UpdateCursor_new_cursor (s : State) :
  NeedUpdate s = true → Shape s ≠ CUSTOM_SHAPE →
  ∃ c, Cursor (UpdateCursor s) = Some c ∧ actors s !! c = None ∧
       cursor_position (UpdateCursor s) = Some (Position NewActor) ∧
       cursor_scale (UpdateCursor s) = Some (Scale NewActor).
Proof.
  intros Hdirty Hshape. unfold UpdateCursor, cursor_position, cursor_scale.
  rewrite Hdirty. simpl.
  destruct (Z.eqb_spec (Shape s) CUSTOM_SHAPE); [done|].
  destruct (Shape s =? SPHERE_SHAPE); simpl;
    (eexists; split; [done|]; split; [apply fresh_actor_None|]);
    by rewrite lookup_insert_eq.
Qed.

(** [BuildRepresentation] moves neither the cursor nor the pick position. *)
Lemma BuildRepresentation_keeps_position (s s' : State) evs :
  BuildRepresentation s = (evs, Returned tt s') →
  PickPosition s' = PickPosition s ∧
  cursor_position s' = cursor_position (UpdateCursor s).
Proof.
  intros (c & a & Hc & Ha & Hs)%BuildRepresentation_Returned.
  destruct (UpdateCursor_fields s) as (_ & _ & _ & _ & _ & _ & Hpick).
  assert (s' = UpdateCursor s ∨
          ∃ sc, s' = set_actors (<[c := SetScale sc a]>
                                    (actors (UpdateCursor s)))
                       (UpdateCursor s)) as [->|[sc ->]]; [|done|].
  { destruct (eqb _ zero); [left; apply Hs|].
    destruct Hs as [_ Hs]. destruct (isnan _); eauto. }
  split; [done|]. unfold cursor_position. simpl. rewrite Hc. simpl.
  by rewrite lookup_insert_eq, Ha.
Qed.

End FrameLemmas.

(** ** The shape over the lifetime of the representation *)

Section ShapeInvariants.
Context `{env : Collaborators}.

Lemma shape_shown_ext (s s' : State) :
  Shape s' = Shape s → CustomCursor s' = CustomCursor s →
  Cursor s' = Cursor s → cursor_source s' = cursor_source s →
  shape_shown s → shape_shown s'.
Proof.
  unfold shape_shown. intros -> -> -> ->. done.
Qed.

(** Writing the cursor actor without changing its mapper keeps the source. *)
Lemma cursor_source_write (s : State) c a a' :
  Cursor s = Some c → actors s !! c = Some a → GetMapper a' = GetMapper a →
  cursor_source (set_actors (<[c := a']> (actors s)) s) = cursor_source s.
Proof.
  intros Hc Ha Hm. unfold cursor_source. simpl. rewrite Hc. simpl.
  by rewrite lookup_insert_eq, Ha; simpl; rewrite Hm.
Qed.

Lemma UpdateCursor_shown (s : State) :
  consistent s → shape_shown (UpdateCursor s).
Proof.
  intros Hcons. unfold UpdateCursor.
  destruct (NeedUpdate s) eqn:Hdirty; simpl; [|by apply Hcons].
  destruct (Shape s =? CUSTOM_SHAPE) eqn:Hcustom.
  { unfold shape_shown.
    destruct (CustomCursor s) as [c|] eqn:Hc; simpl;
      rewrite Hcustom, Hc; [by intros ? [= <-] | done]. }
  destruct (Shape s =? SPHERE_SHAPE) eqn:Hsphere; simpl;
    unfold shape_shown, cursor_source; simpl;
    rewrite Hcustom, Hsphere; simpl;
    by rewrite !lookup_insert_eq; simpl; rewrite lookup_insert_eq.
Qed.

Lemma SetCursorShape_consistent shape s :
  consistent s → consistent (SetCursorShape shape s).2.
Proof.
  destruct (SetCursorShape_cases shape s) as [->|(_ & _ & ->)]; [done|].
  by intros _ ?.
Qed.

Lemma SetCustomCursor_consistent customCursor s :
  consistent s → consistent (SetCustomCursor customCursor s).
Proof.
  intros Hcons. unfold SetCustomCursor. destruct customCursor; [|done].
  destruct (negb _); [|done]. simpl.
  destruct (Shape s =? CUSTOM_SHAPE) eqn:Hcustom; [by intros ?|].
  intros Hclean. specialize (Hcons Hclean). revert Hcons.
  unfold shape_shown, cursor_source. simpl. by rewrite Hcustom.
Qed.

Lemma BuildRepresentation_consistent s evs s' :
  BuildRepresentation s = (evs, Returned tt s') →
  consistent s → shape_shown s'.
Proof.
  intros (c & a & Hc & Ha & Hs)%BuildRepresentation_Returned Hcons.
  apply UpdateCursor_shown in Hcons.
  assert (s' = UpdateCursor s ∨
          ∃ sc, s' = set_actors (<[c := SetScale sc a]>
                                    (actors (UpdateCursor s)))
                       (UpdateCursor s)) as [->| [sc ->]]; [|done|].
  { destruct (eqb _ zero); [left; apply Hs|].
    destruct Hs as [_ Hs]. destruct (isnan _); eauto. }
  eapply shape_shown_ext; [..|exact Hcons]; try done.
  by eapply cursor_source_write.
Qed.

Lemma BuildRepresentation_never_throws s evs s' :
  BuildRepresentation s ≠ (evs, Thrown s').
Proof.
  unfold BuildRepresentation.
  destruct (Cursor (UpdateCursor s)); [|done].
  destruct (actors (UpdateCursor s) !! _); [|done].
  destruct (eqb _ zero); [done|]. by destruct (isnan _).
Qed.

Lemma exec_consistent call s s' :
  exec call s = Some s' → consistent s → consistent s'.
Proof.
  destruct call as [shape|cc|cc|ren|pos| |viewport| ]; simpl.
  - intros [= <-]. apply SetCursorShape_consistent.
  - intros [= <-]. apply SetCustomCursor_consistent.
  - intros [= <-] Hcons. unfold SetCursor.
    pose proof (SetCursorShape_consistent CUSTOM_SHAPE s Hcons) as H1.
    destruct (SetCursorShape CUSTOM_SHAPE s) as [evs s1]. simpl in *.
    by apply SetCustomCursor_consistent.
  - intros [= <-] Hcons Hclean. by apply (shape_shown_ext s), Hcons.
  - destruct (WidgetInteraction pos s) as [[] s1|s1|] eqn:Hcall; simpl;
      [| |done]; intros [= <-] Hcons Hclean.
    + apply WidgetInteraction_Returned in Hcall
        as [[_ ->]|(r & mk & p & c & a & _ & _ & _ & Hc & Ha & ->)];
        [by apply Hcons|].
      apply (shape_shown_ext s); try done; [|by apply Hcons].
      unfold cursor_source. simpl. rewrite Hc. simpl.
      by rewrite lookup_insert_eq, Ha.
    + apply WidgetInteraction_Thrown_masked in Hcall
        as (r & mk & _ & Hmask & ->).
      apply (shape_shown_ext s); try done; [|by apply Hcons].
      unfold cursor_source. simpl.
      destruct (Cursor s) as [c|]; simpl; [|done].
      destruct (actors s !! c) as [a|]; simpl; [|done].
      destruct (GetMapper a) as [m|]; simpl; [|done].
      destruct (mask_actors_traversed _ _ _ [] _ _
                  (traversed_init _ _) Hmask m) as (-> & _).
      destruct (mappers s !! m) as [mp|]; simpl; [|done].
      by destruct (_ && _).
  - destruct (BuildRepresentation s) as [evs [[] s1|s1|]] eqn:Hcall; simpl;
      [| |done]; intros [= <-] Hcons.
    + intros _. by eapply BuildRepresentation_consistent.
    + by apply BuildRepresentation_never_throws in Hcall.
  - unfold RenderOpaqueGeometry.
    destruct (BuildRepresentation s) as [evs [[] s1|s1|]] eqn:Hcall; simpl;
      [| |done].
    + destruct (Cursor s1) as [c1|]; [|done].
      destruct (actors s1 !! c1); [|done]. simpl. intros [= <-] Hcons _.
      by eapply BuildRepresentation_consistent.
    + by apply BuildRepresentation_never_throws in Hcall.
  - unfold ReleaseGraphicsResources. destruct (Cursor s) as [c|]; [|done].
    destruct (actors s !! c); [|done]. by intros [= <-].
Qed.

Lemma New_fields heap_actors heap_mappers :
  Shape (New heap_actors heap_mappers) = CROSS_SHAPE ∧
  CustomCursor (New heap_actors heap_mappers) = None ∧
  Renderer (New heap_actors heap_mappers) = None ∧
  HandleSize (New heap_actors heap_mappers) = of_Z 15 ∧
  ValidPick (New heap_actors heap_mappers) = true ∧
  NeedUpdate (New heap_actors heap_mappers) = false.
Proof. done. Qed.

Lemma reachable_consistent (s : State) : reachable s → consistent s.
Proof.
  induction 1 as [acts ms|s call s' _ IH _ Hexec].
  - intros _. unfold shape_shown, cursor_source. simpl.
    by rewrite !lookup_insert_eq; simpl; rewrite lookup_insert_eq.
  - by eapply exec_consistent.
Qed.

Lemma reachable_in_range (s : State) :
  reachable s → CROSS_SHAPE ≤ Shape s ≤ CUSTOM_SHAPE.
Proof.
  induction 1 as [acts ms|s call s' _ IH _ Hexec]; [done|].
  destruct (exec_Shape _ _ _ Hexec) as [->|[? _]]; done.
Qed.

End ShapeInvariants.

(** ** Further properties of the methods *)

Section MethodProperties.
Context `{env : Collaborators}.

(** A shape in range is stored without a warning, and marks the state dirty
    when it differs from the one selected. *)
Lemma SetCursorShape_in_range (shape : Z) (s : State) :
  CROSS_SHAPE ≤ shape ≤ CUSTOM_SHAPE →
  SetCursorShape shape s
  = if shape =? Shape s then ([], s)
    else ([], set_NeedUpdate true (set_Shape shape s)).
Proof.
  intros Hshape. unfold SetCursorShape.
  destruct (Z.ltb_spec shape CROSS_SHAPE); [lia|].
  destruct (Z.gtb_spec shape CUSTOM_SHAPE); [lia|]. simpl.
  by destruct (shape =? Shape s).
Qed.

(** X1. The shape of a representation is always one of the three values of
    the enumeration: [SetCursorShape] lets no other value in, and no other
    method writes the shape except [SetCursor], which stores
    [CUSTOM_SHAPE]. *)
Theorem Shape_always_valid (s : State) :
  reachable s →
  Shape s = CROSS_SHAPE ∨ Shape s = SPHERE_SHAPE ∨ Shape s = CUSTOM_SHAPE.
Proof.
  intros Hin%reachable_in_range.
  unfold CROSS_SHAPE, SPHERE_SHAPE, CUSTOM_SHAPE in *. lia.
Qed.

(** X2. Whenever the representation is not dirty, the cursor in use is the
    one its shape asks for: the stored custom cursor for [CUSTOM_SHAPE] (if
    one is stored), an actor fed by a sphere source for [SPHERE_SHAPE], an
    actor fed by a cross source otherwise.  The lazy rebuild establishes
    this from any state of the lifetime. *)
Theorem clean_state_shows_shape (s : State) :
  reachable s →
  shape_shown (UpdateCursor s) ∧ (NeedUpdate s = false → shape_shown s).
Proof.
  intros Hcons%reachable_consistent. split; [|exact Hcons].
  by apply UpdateCursor_shown.
Qed.

Lemma UpdateCursor_custom (s : State) :
  Shape s = CUSTOM_SHAPE → consistent s →
  Cursor (UpdateCursor s)
  = if CustomCursor s is Some c then Some c else Cursor s.
Proof.
  intros Hshape Hcons. unfold UpdateCursor.
  destruct (NeedUpdate s) eqn:Hdirty; simpl.
  - rewrite Hshape. simpl. by destruct (CustomCursor s).
  - specialize (Hcons Hdirty). unfold shape_shown in Hcons.
    rewrite Hshape in Hcons. simpl in Hcons.
    destruct (CustomCursor s) as [c|]; [by apply Hcons|done].
Qed.

(** X3. The deprecated [SetCursor] never warns and always selects the
    custom shape.  A non-null actor is what [GetCursor] then returns and
    what the next rebuild shows; a null one is ignored, so that the rebuild
    shows the custom cursor stored before, or keeps the cursor in use when
    there is none. *)
Theorem SetCursor_then_update (cursor : option ActorPtr) (s : State) :
  reachable s →
  (SetCursor cursor s).1 = [] ∧
  Shape (SetCursor cursor s).2 = CUSTOM_SHAPE ∧
  GetCursor (SetCursor cursor s).2
    = (if cursor is Some c then Some c else CustomCursor s) ∧
  Cursor (UpdateCursor (SetCursor cursor s).2)
    = (if GetCursor (SetCursor cursor s).2 is Some c then Some c
       else Cursor s).
Proof.
  intros Hcons%reachable_consistent.
  pose proof (SetCursorShape_consistent CUSTOM_SHAPE s Hcons) as Hcons1.
  pose proof (SetCustomCursor_consistent cursor _ Hcons1) as Hcons2.
  destruct (SetCustomCursor_fields cursor (SetCursorShape CUSTOM_SHAPE s).2)
    as (Hshape & Hcur & _).
  assert ((SetCursorShape CUSTOM_SHAPE s).1 = [] ∧
          Shape (SetCursorShape CUSTOM_SHAPE s).2 = CUSTOM_SHAPE ∧
          Cursor (SetCursorShape CUSTOM_SHAPE s).2 = Cursor s ∧
          CustomCursor (SetCursorShape CUSTOM_SHAPE s).2 = CustomCursor s)
    as (Hevs & Hshape1 & Hcur1 & Hcus1).
  { rewrite SetCursorShape_in_range by done.
    destruct (Z.eqb_spec CUSTOM_SHAPE (Shape s)); simpl; done. }
  unfold SetCursor, GetCursor.
  destruct (SetCursorShape CUSTOM_SHAPE s) as [evs s1]. simpl in *.
  subst evs. split; [done|]. split; [congruence|].
  assert (CustomCursor (SetCustomCursor cursor s1)
          = if cursor is Some c then Some c else CustomCursor s) as Hcus.
  { unfold SetCustomCursor. destruct cursor as [c|]; [|done].
    case_bool_decide as Heq; simpl; [congruence|].
    by destruct (Shape s1 =? CUSTOM_SHAPE). }
  split; [done|].
  rewrite UpdateCursor_custom by (done || congruence).
  rewrite Hcur, Hcur1. done.
Qed.


(** X5. Asking for the shape already selected changes nothing.  Asking for
    another valid shape and then for the first one again gives the shape
    back but leaves the representation dirty, so the next rebuild replaces
    a built-in cursor by a new actor. *)
Theorem SetCursorShape_there_and_back (shape : Z) (s : State) :
  CROSS_SHAPE ≤ Shape s ≤ CUSTOM_SHAPE →
  CROSS_SHAPE ≤ shape ≤ CUSTOM_SHAPE →
  SetCursorShape (Shape s) s = ([], s) ∧
  (shape ≠ Shape s →
   let back := SetCursorShape (Shape s) (SetCursorShape shape s).2 in
   (SetCursorShape shape s).1 = [] ∧ back.1 = [] ∧
   back.2 = set_NeedUpdate true s ∧
   (Shape s ≠ CUSTOM_SHAPE → cursor_alive s →
    Cursor (UpdateCursor back.2) ≠ Cursor s)).
Proof.
  intros Hs Hshape.
  split; [by rewrite SetCursorShape_in_range, Z.eqb_refl|].
  intros Hne. simpl. rewrite (SetCursorShape_in_range shape s Hshape).
  destruct (Z.eqb_spec shape (Shape s)) as [?|_]; [done|]. simpl.
  rewrite SetCursorShape_in_range by done. simpl.
  destruct (Z.eqb_spec (Shape s) shape) as [?|_]; [done|]. simpl.
  split; [done|]. split; [done|]. split; [by destruct s|].
  intros Hcustom (c & Hc & Ha).
  destruct (UpdateCursor_new_cursor
              (set_NeedUpdate true (set_Shape (Shape s)
                 (set_NeedUpdate true (set_Shape shape s))))
              eq_refl Hcustom) as (c' & -> & Hfresh & _).
  simpl in Hfresh. rewrite Hc. intros [= ->].
  rewrite Hfresh in Ha. by destruct Ha.
Qed.

End MethodProperties.

Section PickAndRenderProperties.
Context `{env : Collaborators}.

(** X6. The scene the picker is given: every OpenGL mapper that some actor
    of the renderer draws with has both identifier array names cleared and
    is otherwise as before; every other mapper (not an OpenGL mapper, or
    used by no actor of the renderer) is untouched; no mapper appears or
    disappears. *)
Theorem mask_actors_view acts orig actorcol mk :
  mask_actors acts (mkMasking ∅ ∅ orig) actorcol = Some mk →
  ∀ m,
    masked mk !! m
    = (λ mp, if reaches acts actorcol m && IsOpenGLPolyDataMapper mp
             then clear_names mp else mp) <$> orig !! m.
Proof.
  intros Hmask m.
  apply (mask_actors_traversed acts orig actorcol [] _ _
           (traversed_init acts orig) Hmask m).
Qed.

(** X7. The two maps of the traversal hold exactly the names that were
    cleared: a mapper has an entry in the point (cell) map if and only if it
    is an OpenGL mapper reached through the renderer with a point (cell)
    name set, and the entry is that name, also when several actors share
    the mapper. *)
Theorem mask_actors_records acts orig actorcol mk :
  mask_actors acts (mkMasking ∅ ∅ orig) actorcol = Some mk →
  ∀ m,
    pointArrayNames mk !! m
      = (mp ← orig !! m;
         if reaches acts actorcol m && IsOpenGLPolyDataMapper mp
         then PointIdArrayName mp else None) ∧
    cellArrayNames mk !! m
      = (mp ← orig !! m;
         if reaches acts actorcol m && IsOpenGLPolyDataMapper mp
         then CellIdArrayName mp else None).
Proof.
  intros Hmask m.
  apply (mask_actors_traversed acts orig actorcol [] _ _
           (traversed_init acts orig) Hmask m).
Qed.

(** X8. A call of [WidgetInteraction] left by an exception of the picker
    has changed nothing but identifier array names: the cursor has not
    moved, no actor is written, and each mapper is either as before or has
    its two names cleared. *)
Theorem WidgetInteraction_Thrown_state newEventPos (s s' : State) :
  WidgetInteraction newEventPos s = Thrown s' →
  ∃ ren,
    Renderer s = Some ren ∧
    s' = set_mappers (mappers s') s ∧
    actors s' = actors s ∧
    cursor_position s' = cursor_position s ∧
    ∀ m, mappers s' !! m
         = (λ mp, if reaches (actors s) (GetActors ren) m
                     && IsOpenGLPolyDataMapper mp
                  then clear_names mp else mp) <$> mappers s !! m.
Proof.
  intros (ren & mk & Hren & Hmask & ->)%WidgetInteraction_Thrown_masked.
  exists ren. repeat split; try done.
  intros m. simpl.
  apply (mask_actors_traversed _ _ _ [] _ _ (traversed_init _ _) Hmask m).
Qed.

(** X9. During the lifetime of a representation, [WidgetInteraction] does
    not dereference a null or dangling pointer as long as the actors of the
    renderer and their mappers are alive: it returns, or passes on the
    exception of the picker. *)
Theorem WidgetInteraction_never_crashes newEventPos (s : State) :
  reachable s →
  (∀ ren, Renderer s = Some ren →
          scene_alive (actors s) (mappers s) (GetActors ren)) →
  is_Some (left_by (WidgetInteraction newEventPos s)).
Proof.
  intros [(c & Hc & a & Ha) _]%reachable_alive Hscene.
  unfold WidgetInteraction.
  destruct (Renderer s) as [ren|]; [|done].
  destruct (mask_actors_total (actors s) (GetActors ren)
              (mkMasking ∅ ∅ (mappers s)) (Hscene ren eq_refl)) as [mk ->].
  simpl. destruct (Pick _ _ _ _ _ _); [|done].
  by rewrite Hc, Ha.
Qed.

(** X10. [BuildRepresentation] writes nothing but the lazy rebuild and the
    scale of the cursor actor: relative to the state after the rebuild, the
    members, the mappers, the cursor pointer and the cursor's position are
    the same, every actor other than the cursor is untouched, at most one
    division is executed, and the state is left clean. *)
Theorem BuildRepresentation_frame (s s' : State) evs :
  BuildRepresentation s = (evs, Returned tt s') →
  Shape s' = Shape s ∧ CustomCursor s' = CustomCursor s ∧
  Renderer s' = Renderer s ∧ HandleSize s' = HandleSize s ∧
  ValidPick s' = ValidPick s ∧ PickPosition s' = PickPosition s ∧
  NeedUpdate s' = false ∧
  mappers s' = mappers (UpdateCursor s) ∧
  Cursor s' = Cursor (UpdateCursor s) ∧
  cursor_position s' = cursor_position (UpdateCursor s) ∧
  (∀ p, Cursor s' ≠ Some p →
        actors s' !! p = actors (UpdateCursor s) !! p) ∧
  (∀ p a, actors s !! p = Some a → Cursor s' ≠ Some p →
          actors s' !! p = Some a) ∧
  (length evs ≤ 1)%nat.
Proof.
  intros Hcall.
  pose proof (BuildRepresentation_Returned _ _ _ Hcall)
    as (c & a & Hc & Ha & Hs).
  destruct (UpdateCursor_fields s) as (H1 & H2 & H3 & H4 & H5 & _ & H7).
  pose proof (UpdateCursor_clean s) as Hclean.
  assert ((length evs ≤ 1)%nat ∧
          (s' = UpdateCursor s ∨
           ∃ sc, s' = set_actors (<[c := SetScale sc a]>
                                     (actors (UpdateCursor s)))
                        (UpdateCursor s))) as [Hlen [->|[sc ->]]].
  { destruct (eqb _ zero); [destruct Hs as [-> ->]; auto|].
    destruct Hs as [-> Hs]. split; [done|]. destruct (isnan _); eauto. }
  - repeat split; try done.
    intros p b Hp _. by apply UpdateCursor_keeps_actor.
  - simpl. repeat split; try done.
    + unfold cursor_position. simpl. rewrite Hc. simpl.
      by rewrite lookup_insert_eq, Ha.
    + intros p Hp. rewrite lookup_insert_ne; [done|congruence].
    + intros p b Hp Hne. rewrite lookup_insert_ne by congruence.
      by apply UpdateCursor_keeps_actor.
Qed.

(** X11. A pick followed by a rebuild.  When the representation was not
    dirty, the cursor stays where the pick has put it.  When a change to a
    cross or sphere shape was pending, the pick has moved the cursor that
    the rebuild replaces, and the new cursor is at the position of a newly
    constructed actor, not at the picked one. *)
Theorem pick_then_build newEventPos (s s1 s2 : State) ren evs :
  Renderer s = Some ren →
  WidgetInteraction newEventPos s = Returned tt s1 →
  BuildRepresentation s1 = (evs, Returned tt s2) →
  (NeedUpdate s = false → cursor_position s2 = Some (PickPosition s2)) ∧
  (NeedUpdate s = true → Shape s ≠ CUSTOM_SHAPE →
   cursor_position s2 = Some (Position NewActor)).
Proof.
  intros Hren Hpick Hbuild.
  apply WidgetInteraction_Returned in Hpick
    as [[Hnone _]|(r & mk & pos & c & a & _ & _ & _ & Hc & Ha & ->)];
    [congruence|].
  destruct (BuildRepresentation_keeps_position _ _ _ Hbuild) as [Hpos ->].
  rewrite Hpos. split.
  - intros Hclean. rewrite UpdateCursor_idle by done.
    unfold cursor_position. simpl. rewrite Hc. simpl.
    by rewrite lookup_insert_eq.
  - intros Hdirty Hshape.
    by destruct (UpdateCursor_new_cursor
                   (set_actors (<[c:=SetPosition pos a]> (actors s))
                      (set_PickPosition pos s)) Hdirty Hshape)
      as (c' & _ & _ & -> & _).
Qed.

(** X12. The constructor leaves every actor and mapper of the scene as it
    is and yields a clean representation with the cross shape, handle size
    15, a valid pick, no renderer and no custom cursor, whose cursor is a
    new actor fed by a cross source, in the cursor colour, with line width
    2. *)
Theorem New_spec heap_actors heap_mappers :
  let s := New heap_actors heap_mappers in
  Shape s = CROSS_SHAPE ∧ NeedUpdate s = false ∧
  HandleSize s = of_Z 15 ∧ ValidPick s = true ∧
  Renderer s = None ∧ CustomCursor s = None ∧
  (∀ p a, heap_actors !! p = Some a → actors s !! p = Some a) ∧
  (∀ m mp, heap_mappers !! m = Some mp → mappers s !! m = Some mp) ∧
  ∃ c a,
    Cursor s = Some c ∧ heap_actors !! c = None ∧ actors s !! c = Some a ∧
    Color a = CURSOR_COLOR ∧ LineWidth a = CROSS_LINE_WIDTH ∧
    Position a = Position NewActor ∧ Scale a = Scale NewActor ∧
    cursor_source s = Some (Cursor3DSource false true false false false).
Proof.
  simpl. repeat split; try done.
  - intros p a Hp. unfold New. simpl. rewrite lookup_insert_ne; [done|].
    intros <-. pose proof (is_fresh (dom heap_actors)) as Hfresh.
    apply not_elem_of_dom in Hfresh. congruence.
  - intros m mp Hm. unfold New. simpl. rewrite lookup_insert_ne; [done|].
    intros <-. pose proof (is_fresh (dom heap_mappers)) as Hfresh.
    apply not_elem_of_dom in Hfresh. congruence.
  - eexists _, _. split; [done|].
    split; [apply not_elem_of_dom, is_fresh|].
    unfold New, cursor_source. simpl.
    by rewrite !lookup_insert_eq; simpl; rewrite lookup_insert_eq.
Qed.

(** X13. During the lifetime of a representation, [RenderOpaqueGeometry]
    returns; it leaves the state and the events of [BuildRepresentation],
    which is clean and shows the selected shape, and its result is the
    status of the cursor actor of that state, rendered after the
    rescaling. *)
Theorem RenderOpaqueGeometry_spec viewport (s : State) :
  reachable s →
  ∃ evs s' c a,
    BuildRepresentation s = (evs, Returned tt s') ∧
    Cursor s' = Some c ∧ actors s' !! c = Some a ∧
    RenderOpaqueGeometry viewport s
      = (evs, Returned (ActorRenderOpaqueGeometry viewport (mappers s') a)
                s') ∧
    NeedUpdate s' = false ∧ shape_shown s'.
Proof.
  intros Hreach.
  destruct (BuildRepresentation_alive s (reachable_alive s Hreach))
    as (evs & s' & Hbuild & [(c & Hc & a & Ha) _]).
  exists evs, s', c, a. repeat split; try done.
  - unfold RenderOpaqueGeometry. by rewrite Hbuild, Hc, Ha.
  - by eapply BuildRepresentation_clean; rewrite Hbuild.
  - eapply BuildRepresentation_consistent; [done|].
    by apply reachable_consistent.
Qed.

End PickAndRenderProperties.

(** ** The further properties at work on the concrete scene *)

Section MoreScenes.
Import Demo.

Lemma bound_rep_reachable : reachable (env := steady) bound_rep.
Proof.
  apply (reachable_exec fresh_rep (CallSetRenderer (Some 1%positive)));
    [apply reachable_New | exact I | reflexivity].
Qed.

Lemma dirty_rep_reachable : reachable (env := steady) dirty_rep.
Proof.
  apply (reachable_exec bound_rep (CallSetCursorShape SPHERE_SHAPE));
    [apply bound_rep_reachable | exact I | vm_compute; reflexivity].
Qed.

Lemma bound_scene_alive :
  ∀ ren, Renderer bound_rep = Some ren →
         scene_alive (actors bound_rep) (mappers bound_rep)
           (GetActors (Collaborators := steady) ren).
Proof.
  intros ren [= <-]. unfold scene_alive. simpl.
  repeat (apply List.Forall_cons;
    [eexists; split; [vm_compute; reflexivity|];
     intros m Hm; vm_compute in Hm; try discriminate Hm;
     injection Hm as <-; vm_compute; eauto|]).
  apply List.Forall_nil.
Qed.

(** A shape asked for but not built yet is still one of the three. *)
Lemma Shape_always_valid_witness :
  Shape dirty_rep = CROSS_SHAPE ∨ Shape dirty_rep = SPHERE_SHAPE ∨
  Shape dirty_rep = CUSTOM_SHAPE.
Proof.
  exact (Shape_always_valid (env := steady) dirty_rep dirty_rep_reachable).
Defined.

Lemma clean_state_shows_shape_witness :
  shape_shown (UpdateCursor (env := steady) dirty_rep) ∧
  (NeedUpdate dirty_rep = false → shape_shown dirty_rep).
Proof.
  exact (clean_state_shows_shape (env := steady) dirty_rep
           dirty_rep_reachable).
Defined.

(** Actor 13 handed to the deprecated setter of a new representation. *)
Lemma SetCursor_then_update_witness :
  (SetCursor (Some 13%positive) fresh_rep).1 = [] ∧
  Shape (SetCursor (Some 13%positive) fresh_rep).2 = CUSTOM_SHAPE ∧
  GetCursor (SetCursor (Some 13%positive) fresh_rep).2 = Some 13%positive ∧
  Cursor (UpdateCursor (env := steady)
            (SetCursor (Some 13%positive) fresh_rep).2)
    = (if GetCursor (SetCursor (Some 13%positive) fresh_rep).2 is Some c
       then Some c else Cursor fresh_rep).
Proof.
  exact (SetCursor_then_update (env := steady) (Some 13%positive) fresh_rep
           (reachable_New scene_actors scene_mappers)).
Defined.


(** Cross, sphere, cross again on a new representation. *)
Lemma SetCursorShape_there_and_back_witness :
  SetCursorShape (Shape fresh_rep) fresh_rep = ([], fresh_rep) ∧
  (SPHERE_SHAPE ≠ Shape fresh_rep →
   let back := SetCursorShape (Shape fresh_rep)
                 (SetCursorShape SPHERE_SHAPE fresh_rep).2 in
   (SetCursorShape SPHERE_SHAPE fresh_rep).1 = [] ∧ back.1 = [] ∧
   back.2 = set_NeedUpdate true fresh_rep ∧
   (Shape fresh_rep ≠ CUSTOM_SHAPE → cursor_alive fresh_rep →
    Cursor (UpdateCursor (env := steady) back.2) ≠ Cursor fresh_rep)).
Proof.
  apply (SetCursorShape_there_and_back (env := steady)
           SPHERE_SHAPE fresh_rep); vm_compute; split; discriminate.
Defined.

(** The shared OpenGL mapper 20 of renderer 1, as the picker sees it. *)
Lemma mask_actors_view_witness :
  masked bound_mask !! 20%positive
  = (λ mp, if reaches (actors bound_rep) (scene_renderers 1%positive)
                20%positive && IsOpenGLPolyDataMapper mp
           then clear_names mp else mp) <$> mappers bound_rep !! 20%positive.
Proof.
  apply (mask_actors_view (actors bound_rep) (mappers bound_rep)
           (scene_renderers 1%positive) bound_mask).
  vm_compute; reflexivity.
Defined.

Lemma mask_actors_records_witness :
  pointArrayNames bound_mask !! 20%positive
    = (mp ← mappers bound_rep !! 20%positive;
       if reaches (actors bound_rep) (scene_renderers 1%positive)
            20%positive && IsOpenGLPolyDataMapper mp
       then PointIdArrayName mp else None) ∧
  cellArrayNames bound_mask !! 20%positive
    = (mp ← mappers bound_rep !! 20%positive;
       if reaches (actors bound_rep) (scene_renderers 1%positive)
            20%positive && IsOpenGLPolyDataMapper mp
       then CellIdArrayName mp else None).
Proof.
  apply (mask_actors_records (actors bound_rep) (mappers bound_rep)
           (scene_renderers 1%positive) bound_mask).
  vm_compute; reflexivity.
Defined.

(** The picker that throws, in the scene of renderer 1. *)
Lemma WidgetInteraction_Thrown_state_witness :
  ∃ ren,
    Renderer bound_rep = Some ren ∧
    masked_rep = set_mappers (mappers masked_rep) bound_rep ∧
    actors masked_rep = actors bound_rep ∧
    cursor_position masked_rep = cursor_position bound_rep ∧
    ∀ m, mappers masked_rep !! m
         = (λ mp, if reaches (actors bound_rep)
                       (GetActors (Collaborators := faulty) ren) m
                     && IsOpenGLPolyDataMapper mp
                  then clear_names mp else mp) <$> mappers bound_rep !! m.
Proof.
  apply (WidgetInteraction_Thrown_state (env := faulty) (one, one)
           bound_rep masked_rep).
  vm_compute; reflexivity.
Defined.

Lemma WidgetInteraction_never_crashes_witness :
  is_Some (left_by (WidgetInteraction (env := steady) (one, two) bound_rep)).
Proof.
  exact (WidgetInteraction_never_crashes (env := steady) (one, two) bound_rep
           bound_rep_reachable bound_scene_alive).
Defined.

(** The first rescaling of a new representation. *)
Lemma BuildRepresentation_frame_witness :
  Shape cross_once = Shape fresh_rep ∧
  CustomCursor cross_once = CustomCursor fresh_rep ∧
  Renderer cross_once = Renderer fresh_rep ∧
  HandleSize cross_once = HandleSize fresh_rep ∧
  ValidPick cross_once = ValidPick fresh_rep ∧
  PickPosition cross_once = PickPosition fresh_rep ∧
  NeedUpdate cross_once = false ∧
  mappers cross_once = mappers (UpdateCursor (env := steady) fresh_rep) ∧
  Cursor cross_once = Cursor (UpdateCursor (env := steady) fresh_rep) ∧
  cursor_position cross_once
    = cursor_position (UpdateCursor (env := steady) fresh_rep) ∧
  (∀ p, Cursor cross_once ≠ Some p →
        actors cross_once !! p
        = actors (UpdateCursor (env := steady) fresh_rep) !! p) ∧
  (∀ p a, actors fresh_rep !! p = Some a → Cursor cross_once ≠ Some p →
          actors cross_once !! p = Some a) ∧
  (length cross_events ≤ 1)%nat.
Proof.
  apply (BuildRepresentation_frame (env := steady) fresh_rep cross_once
           cross_events).
  vm_compute; reflexivity.
Defined.

(** A pick while the sphere is pending: the sphere is built at the origin,
    not at the picked position (1, 2, 0). *)
Lemma pick_then_build_witness :
  (NeedUpdate dirty_rep = false →
   cursor_position lost_built = Some (PickPosition lost_built)) ∧
  (NeedUpdate dirty_rep = true → Shape dirty_rep ≠ CUSTOM_SHAPE →
   cursor_position lost_built = Some (Position default_actor)).
Proof.
  apply (pick_then_build (env := steady) (one, two)
           dirty_rep lost_pick lost_built 1%positive lost_events);
    vm_compute; reflexivity.
Defined.

Lemma RenderOpaqueGeometry_spec_witness :
  ∃ evs s' c a,
    BuildRepresentation (env := steady) dirty_rep = (evs, Returned tt s') ∧
    Cursor s' = Some c ∧ actors s' !! c = Some a ∧
    RenderOpaqueGeometry (env := steady) 1%positive dirty_rep
      = (evs, Returned (ActorRenderOpaqueGeometry (Collaborators := steady)
                          1%positive (mappers s') a) s') ∧
    NeedUpdate s' = false ∧ shape_shown s'.
Proof.
  exact (RenderOpaqueGeometry_spec (env := steady) 1%positive dirty_rep
           dirty_rep_reachable).
Defined.

End MoreScenes.

(** ** A custom cursor stored ahead of its shape *)

Section StoredCustomCursor.
Context `{env : Collaborators}.

(** X14. A custom cursor stored while another shape is selected does not
    change the cursor that is shown, now or at the next rebuild; it is
    shown by the rebuild that follows the selection of the custom shape. *)
Theorem SetCustomCursor_shown_later (c : ActorPtr) (s : State) :
  Shape s ≠ CUSTOM_SHAPE →
  NeedUpdate (SetCustomCursor (Some c) s) = NeedUpdate s ∧
  Cursor (SetCustomCursor (Some c) s) = Cursor s ∧
  Cursor (UpdateCursor (SetCustomCursor (Some c) s))
    = Cursor (UpdateCursor s) ∧
  actors (UpdateCursor (SetCustomCursor (Some c) s))
    = actors (UpdateCursor s) ∧
  (SetCursorShape CUSTOM_SHAPE (SetCustomCursor (Some c) s)).1 = [] ∧
  Cursor (UpdateCursor
            (SetCursorShape CUSTOM_SHAPE (SetCustomCursor (Some c) s)).2)
    = Some c.
Proof.
  intros Hshape.
  assert (∃ t, SetCustomCursor (Some c) s = t ∧ Shape t = Shape s ∧
               NeedUpdate t = NeedUpdate s ∧ Cursor t = Cursor s ∧
               actors t = actors s ∧ mappers t = mappers s ∧
               CustomCursor t = Some c) as (t & -> & Ht).
  { eexists. split; [done|]. unfold SetCustomCursor.
    case_bool_decide as Heq; simpl; [by rewrite <- Heq|].
    by destruct (Z.eqb_spec (Shape s) CUSTOM_SHAPE). }
  destruct Ht as (Hsh & Hdirty & Hcur & Hacts & Hmaps & Hcus).
  split; [done|]. split; [done|].
  assert (Cursor (UpdateCursor t) = Cursor (UpdateCursor s) ∧
          actors (UpdateCursor t) = actors (UpdateCursor s)) as [-> ->].
  { unfold UpdateCursor. rewrite Hdirty.
    destruct (NeedUpdate s); simpl; [|done]. rewrite Hsh.
    destruct (Z.eqb_spec (Shape s) CUSTOM_SHAPE); [done|].
    destruct (Shape s =? SPHERE_SHAPE); simpl; by rewrite Hacts, Hmaps. }
  split; [done|]. split; [done|].
  rewrite SetCursorShape_in_range by done. rewrite Hsh.
  destruct (Z.eqb_spec CUSTOM_SHAPE (Shape s)); [done|]. simpl.
  split; [done|]. unfold UpdateCursor. simpl. by rewrite Hcus.
Qed.

End StoredCustomCursor.

Section StoredCustomCursorScene.
Import Demo.

(** Actor 13 stored in a new representation, whose shape is the cross. *)
Lemma SetCustomCursor_shown_later_witness :
  NeedUpdate (SetCustomCursor (Some 13%positive) fresh_rep)
    = NeedUpdate fresh_rep ∧
  Cursor (SetCustomCursor (Some 13%positive) fresh_rep) = Cursor fresh_rep ∧
  Cursor (UpdateCursor (env := steady)
            (SetCustomCursor (Some 13%positive) fresh_rep))
    = Cursor (UpdateCursor (env := steady) fresh_rep) ∧
  actors (UpdateCursor (env := steady)
            (SetCustomCursor (Some 13%positive) fresh_rep))
    = actors (UpdateCursor (env := steady) fresh_rep) ∧
  (SetCursorShape CUSTOM_SHAPE
     (SetCustomCursor (Some 13%positive) fresh_rep)).1 = [] ∧
  Cursor (UpdateCursor (env := steady)
            (SetCursorShape CUSTOM_SHAPE
               (SetCustomCursor (Some 13%positive) fresh_rep)).2)
    = Some 13%positive.
Proof.
  apply (SetCustomCursor_shown_later (env := steady) 13%positive fresh_rep).
  vm_compute; discriminate.
Defined.

End StoredCustomCursorScene.
